(** * FileHarmony: the checkbox tree, the collector and the rename engine

    A shallow embedding of [FileHarmony.py].  The program is a PyQt6 window
    around three pieces of logic: the lazily populated tree of drives, folders
    and audio files ([populate_tree], [on_item_expanded], [on_item_changed],
    [find_item_by_path]), the collection of the checked files
    ([gather_checked]) and the rename loop with its refresh of the affected
    folders (the rest of [rename_files]).

    What the program takes from its environment is modelled explicitly:
    - Python [str] values are lists of characters ([str]); names are taken to
      be ASCII, so [str.lower] is the ASCII lower-casing;
    - [os.path] is [ntpath] (the program lists drives through
      [ctypes.windll], so it runs on Windows only);
    - the file system is a finite tree of directories, files and links
      whose target is gone (entries that are neither a file nor a directory
      to the program) under drive letters, looked up without regard to
      case, with no concurrent writers;
    - the tag readers of mutagen are a function of the file found at a path;
    - a [QTreeWidgetItem] is a record with its text, its [UserRole] data, its
      check state and its children; items are addressed by their position in
      the tree. *)

From Stdlib Require Import Ascii String.
From Stdlib Require Import List Bool Arith Lia.
From Stdlib Require Import Permutation Sorted Relations.
Import ListNotations.

Set Implicit Arguments.
Set Warnings "-register-all".

(** ** Python strings *)

Definition str := list ascii.

Coercion list_ascii_of_string : string >-> list.

Module Py.

(** [c.lower()] on an ASCII character. *)
Definition lower_char (c : ascii) : ascii :=
  let n := nat_of_ascii c in
  if (65 <=? n) && (n <=? 90) then ascii_of_nat (n + 32) else c.

(** [s.lower()] *)
Definition lower (s : str) : str := map lower_char s.

Definition str_eqb (a b : str) : bool :=
  if list_eq_dec ascii_dec a b then true else false.

(** [c in chars] *)
Definition char_in (c : ascii) (chars : str) : bool :=
  existsb (Ascii.eqb c) chars.

(** [s.startswith(prefix)] *)
Fixpoint startswith (s prefix : str) : bool :=
  match prefix, s with
  | [], _ => true
  | _ :: _, [] => false
  | a :: prefix', b :: s' => Ascii.eqb a b && startswith s' prefix'
  end.

(** [s.endswith(suffix)] *)
Definition endswith (s suffix : str) : bool :=
  startswith (rev s) (rev suffix).

(** [s.endswith(suffixes)] for a tuple of suffixes *)
Definition endswith_any (s : str) (suffixes : list str) : bool :=
  existsb (endswith s) suffixes.

(** [s[:-n]] for a positive literal [n] *)
Definition drop_last (n : nat) (s : str) : str :=
  firstn (length s - n) s.

(** [''.join(parts)] *)
Definition join_empty (parts : list str) : str := concat parts.

Fixpoint dropwhile (f : ascii -> bool) (s : str) : str :=
  match s with
  | [] => []
  | c :: s' => if f c then dropwhile f s' else s
  end.

Fixpoint takewhile (f : ascii -> bool) (s : str) : str :=
  match s with
  | [] => []
  | c :: s' => if f c then c :: takewhile f s' else []
  end.

(** [s] is empty or starts with a character [f] rejects. *)
Definition stops (f : ascii -> bool) (s : str) : Prop :=
  match s with [] => True | c :: _ => f c = false end.

(** [s.rstrip(chars)] *)
Definition rstrip (s chars : str) : str :=
  rev (dropwhile (fun c => char_in c chars) (rev s)).

(** [s.find(c, start)] for a single character [c]; [None] stands for -1. *)
Fixpoint find_from (c : ascii) (start : nat) (s : str) : option nat :=
  match start, s with
  | S k, _ :: s' => option_map S (find_from c k s')
  | S _, [] => None
  | 0, [] => None
  | 0, d :: s' => if Ascii.eqb d c then Some 0
                  else option_map S (find_from c 0 s')
  end.

(** [s.replace(a, b)] for single characters *)
Definition replace_char (a b : ascii) (s : str) : str :=
  map (fun c => if Ascii.eqb c a then b else c) s.

(** [s.upper()] on ASCII *)
Definition upper_char (c : ascii) : ascii :=
  let n := nat_of_ascii c in
  if (97 <=? n) && (n <=? 122) then ascii_of_nat (n - 32) else c.

Definition upper (s : str) : str := map upper_char s.

End Py.

(** ** [os.path] on Windows: [ntpath] *)

Module ntpath.

Definition sep : ascii := "\"%char.
Definition altsep : ascii := "/"%char.
Definition colon : ascii := ":"%char.
Definition extsep : ascii := "."%char.
Definition seps : str := [sep; altsep].

Definition is_sep (c : ascii) : bool := Py.char_in c seps.

Definition unc_prefix : str := [sep; sep; "?"%char; sep;
                                "U"%char; "N"%char; "C"%char; sep].

(** [splitdrive(p)]: a drive-letter prefix [X:], or a UNC or device prefix
    [\\server\share], is split off. *)
Definition splitdrive (p : str) : str * str :=
  if 2 <=? length p then
    let normp := Py.replace_char altsep sep p in
    if Py.str_eqb (firstn 2 normp) [sep; sep] then
      let start :=
        if Py.str_eqb (Py.upper (firstn 8 normp)) unc_prefix then 8 else 2 in
      match Py.find_from sep start normp with
      | None => (p, [])
      | Some index =>
          match Py.find_from sep (index + 1) normp with
          | None => (p, [])
          | Some index2 => (firstn index2 p, skipn index2 p)
          end
      end
    else if Py.str_eqb (firstn 1 (skipn 1 normp)) [colon] then
      (firstn 2 p, skipn 2 p)
    else ([], p)
  else ([], p).

Definition not_sep (c : ascii) : bool := negb (is_sep c).

(** [head.rstrip(seps) or head] *)
Definition strip_head (head : str) : str :=
  match Py.rstrip head seps with
  | [] => head
  | stripped => stripped
  end.

(** [split(p)]: the part up to the last separator, stripped of trailing
    separators unless it consists of separators only, and the part after
    it. *)
Definition split (p : str) : str * str :=
  let (d, p) := splitdrive p in
  let tail := rev (Py.takewhile not_sep (rev p)) in
  let head := rev (Py.dropwhile not_sep (rev p)) in
  (d ++ strip_head head, tail).

Definition basename (p : str) : str := snd (split p).
Definition dirname (p : str) : str := fst (split p).

Definition last_char (s : str) : option ascii :=
  match rev s with [] => None | c :: _ => Some c end.

Definition first_is_sep (s : str) : bool :=
  match s with c :: _ => is_sep c | [] => false end.

Definition last_is_sep (s : str) : bool :=
  match last_char s with Some c => is_sep c | None => false end.

(** [result_path] with a separator after it, unless it is empty or ends in
    one already. *)
Definition with_sep (result_path : str) : str :=
  if negb (last_is_sep result_path) && negb (Py.str_eqb result_path [])
  then result_path ++ [sep] else result_path.

(** [join(path, p)] with one further component. *)
Definition join (path p : str) : str :=
  let (result_drive, result_path) := splitdrive path in
  let (p_drive, p_path) := splitdrive p in
  let '(result_drive, result_path) :=
    if first_is_sep p_path then
      (* the second path is absolute *)
      ((match p_drive, result_drive with
        | [], _ :: _ => result_drive
        | _, _ => p_drive
        end), p_path)
    else if negb (Py.str_eqb p_drive [])
            && negb (Py.str_eqb p_drive result_drive) then
      if negb (Py.str_eqb (Py.lower p_drive) (Py.lower result_drive))
      then (* another drive: the first path is dropped *)
           (p_drive, p_path)
      else (* the same drive in another case *)
           (p_drive, with_sep result_path ++ p_path)
    else (* the second path is relative to the first *)
         (result_drive, with_sep result_path ++ p_path) in
  if negb (Py.str_eqb result_path []) && negb (first_is_sep result_path)
     && negb (Py.str_eqb result_drive [])
     && negb (match last_char result_drive with
              | Some c => Ascii.eqb c colon
              | None => false
              end)
  then result_drive ++ [sep] ++ result_path
  else result_drive ++ result_path.

(** [splitext(p)]: the extension starts at the last dot of the last
    component, unless that component has nothing but dots before it. *)
Definition splitext (p : str) : str * str :=
  let name := rev (Py.takewhile not_sep (rev p)) in
  let after_dot :=
    rev (Py.takewhile (fun c => negb (Ascii.eqb c extsep)) (rev name)) in
  let before_dot := firstn (length name - length after_dot - 1) name in
  if (length after_dot <? length name)
     && negb (forallb (Ascii.eqb extsep) before_dot)
  then (firstn (length p - length after_dot - 1) p,
        skipn (length p - length after_dot - 1) p)
  else (p, []).

End ntpath.

Definition SUPPORTED_EXTS : list str :=
  [ (".mp3"%string : str); (".flac"%string : str); (".wav"%string : str) ].

(** ** The file system

    A drive letter leads to a root directory; a directory lists its entries
    in the order [os.scandir] yields them; a file carries what the tag readers
    find in it; a dangling link has a name and nothing behind it, so that
    [is_file], [is_dir], [os.path.isfile], [os.path.isdir] and
    [os.path.exists] are all false of it.  Names are compared without regard
    to case, as Windows does. *)

Module FS.

(** What mutagen finds in a file: nothing readable (the reader raises), tags
    without a title, or the values of the title tag. *)
Inductive tags :=
| Unreadable
| NoTitle
| Title (values : list str).

Inductive node :=
| File (t : tags)
| Dir (entries : list (str * node))
| Dangling.

(** Drive letters and their root directories. *)
Definition t := list (ascii * node).

Definition is_dir_node (n : node) : bool :=
  match n with Dir _ => true | _ => false end.

Definition is_file_node (n : node) : bool :=
  match n with File _ => true | _ => false end.

Section node_induction.
Variable P : node -> Prop.
Hypothesis HFile : forall t, P (File t).
Hypothesis HDir : forall es, Forall (fun e => P (snd e)) es -> P (Dir es).
Hypothesis HDangling : P Dangling.

Fixpoint node_ind' (n : node) : P n :=
  match n with
  | File t => HFile t
  | Dir es =>
      HDir ((fix all (l : list (str * node)) :
               Forall (fun e => P (snd e)) l :=
               match l with
               | [] => Forall_nil _
               | e :: l' => Forall_cons e (node_ind' (snd e)) (all l')
               end) es)
  | Dangling => HDangling
  end.
End node_induction.

(** The components of the part of a path after its drive. *)
Definition emit (cur : str) : list str :=
  match cur with [] => [] | _ => [cur] end.

Fixpoint components_from (cur : str) (p : str) : list str :=
  match p with
  | [] => emit cur
  | c :: p' =>
      if ntpath.is_sep c
      then emit cur ++ components_from [] p'
      else components_from (cur ++ [c]) p'
  end.

Definition components (p : str) : list str := components_from [] p.

(** [.] is dropped and [..] steps back, before the disk is looked at. *)
Fixpoint normalize_onto (stack : list str) (cs : list str) : list str :=
  match cs with
  | [] => rev stack
  | c :: cs' =>
      if Py.str_eqb c ("."%string : str) then normalize_onto stack cs'
      else if Py.str_eqb c (".."%string : str)
           then normalize_onto (tl stack) cs'
           else normalize_onto (c :: stack) cs'
  end.

Definition normalize (cs : list str) : list str := normalize_onto [] cs.

(** The drive letter and the components a path stands for; drive-relative
    paths are read from the root of their drive, and paths without a drive
    letter name nothing. *)
Definition locate (p : str) : option (ascii * list str) :=
  match ntpath.splitdrive p with
  | ([c; colon], rest) =>
      if Ascii.eqb colon ntpath.colon
      then Some (Py.lower_char c, normalize (map Py.lower (components rest)))
      else None
  | _ => None
  end.

Fixpoint lookup (name : str) (es : list (str * node)) : option node :=
  match es with
  | [] => None
  | (n, x) :: es' =>
      if Py.str_eqb (Py.lower n) name then Some x else lookup name es'
  end.

Fixpoint descend (n : node) (cs : list str) : option node :=
  match cs with
  | [] => Some n
  | c :: cs' =>
      match n with
      | Dir es =>
          match lookup c es with
          | Some x => descend x cs'
          | None => None
          end
      | _ => None
      end
  end.

Fixpoint lookup_drive (c : ascii) (fs : t) : option node :=
  match fs with
  | [] => None
  | (d, root) :: fs' =>
      if Ascii.eqb (Py.lower_char d) c then Some root else lookup_drive c fs'
  end.

Definition resolve (fs : t) (p : str) : option node :=
  match locate p with
  | Some (c, cs) =>
      match lookup_drive c fs with
      | Some root => descend root cs
      | None => None
      end
  | None => None
  end.

Fixpoint alter_entry (name : str) (g : node -> option node)
         (es : list (str * node)) : option (list (str * node)) :=
  match es with
  | [] => None
  | (n, x) :: es' =>
      if Py.str_eqb (Py.lower n) name
      then option_map (fun x' => (n, x') :: es') (g x)
      else option_map (cons (n, x)) (alter_entry name g es')
  end.

(** Replace the directory reached through [cs] by what [f] makes of its
    entries; [None] when the directory is not there or [f] refuses. *)
Fixpoint alter_dir (f : list (str * node) -> option (list (str * node)))
         (cs : list str) (n : node) : option node :=
  match n, cs with
  | Dir es, [] => option_map Dir (f es)
  | Dir es, c :: cs' => option_map Dir (alter_entry c (alter_dir f cs') es)
  | _, _ => None
  end.

Fixpoint alter_drive (c : ascii) (f : node -> option node) (fs : t)
  : option t :=
  match fs with
  | [] => None
  | (d, root) :: fs' =>
      if Ascii.eqb (Py.lower_char d) c
      then option_map (fun r => (d, r) :: fs') (f root)
      else option_map (cons (d, root)) (alter_drive c f fs')
  end.

Fixpoint remove_entry (name : str) (es : list (str * node))
  : option (list (str * node)) :=
  match es with
  | [] => None
  | (n, x) :: es' =>
      if Py.str_eqb (Py.lower n) name then Some es'
      else option_map (cons (n, x)) (remove_entry name es')
  end.

(** A name a directory can hold: not empty, neither [.] nor [..], with
    neither a separator nor a colon in it. *)
Definition entry_name_ok (name : str) : bool :=
  negb (Py.str_eqb name [])
  && negb (Py.str_eqb name ("."%string : str))
  && negb (Py.str_eqb name (".."%string : str))
  && forallb (fun c => negb (ntpath.is_sep c)
                       && negb (Ascii.eqb c ntpath.colon)) name.

(** A well-formed directory: its names are such names, no two of them are
    the same but for case, and the directories in it are well formed. *)
Fixpoint wf_node (n : node) : Prop :=
  match n with
  | Dir es =>
      NoDup (map (fun e => Py.lower (fst e)) es)
      /\ (fix all (l : list (str * node)) : Prop :=
            match l with
            | [] => True
            | e :: l' =>
                entry_name_ok (fst e) = true /\ wf_node (snd e) /\ all l'
            end) es
  | _ => True
  end.

Definition wf (fs : t) : Prop := Forall (fun d => wf_node (snd d)) fs.

(** The same, as a test. *)
Fixpoint distinct (l : list str) : bool :=
  match l with
  | [] => true
  | x :: l' => negb (existsb (Py.str_eqb x) l') && distinct l'
  end.

Fixpoint wf_nodeb (n : node) : bool :=
  match n with
  | Dir es =>
      distinct (map (fun e => Py.lower (fst e)) es)
      && forallb (fun e => entry_name_ok (fst e) && wf_nodeb (snd e)) es
  | _ => true
  end.

Definition wfb (fs : t) : bool := forallb (fun d => wf_nodeb (snd d)) fs.

(** Characters Windows refuses in a file name. *)
Definition forbidden_char (c : ascii) : bool :=
  (nat_of_ascii c <? 32)
  || Py.char_in c ("<>:|?*"%string : str)
  || Ascii.eqb c (ascii_of_nat 34).

Definition valid_name (name : str) : bool :=
  negb (Py.str_eqb name []) && negb (existsb forbidden_char name).

(** The name a path gives to its last component, in the case it is
    written in. *)
Definition last_name (p : str) : str :=
  rev (Py.takewhile (fun c => negb (ntpath.is_sep c))
                    (Py.dropwhile ntpath.is_sep (rev p))).

End FS.

(** ** What the program asks of the operating system *)

Module os.

Import FS.

(** [os.path.exists], [os.path.isfile], [os.path.isdir]: each follows a
    link, and finds nothing behind a dangling one. *)
Definition exists_ (fs : FS.t) (p : str) : bool :=
  match resolve fs p with
  | Some (File _) | Some (Dir _) => true
  | _ => false
  end.

Definition isfile (fs : FS.t) (p : str) : bool :=
  match resolve fs p with Some (File _) => true | _ => false end.

Definition isdir (fs : FS.t) (p : str) : bool :=
  match resolve fs p with Some (Dir _) => true | _ => false end.

(** An [os.DirEntry], with what the entry leads to.  [is_dir()] and
    [is_file()] are both false of an entry that leads to neither. *)
Record DirEntry := { name : str; path : str; target : node }.

Definition is_dir (e : DirEntry) : bool := is_dir_node (target e).

Definition is_file (e : DirEntry) : bool := is_file_node (target e).

Definition entry_of (top : str) (e : str * node) : DirEntry :=
  {| name := fst e; path := ntpath.join top (fst e); target := snd e |}.

(** [os.scandir(p)]; [None] when it raises. *)
Definition scandir (fs : FS.t) (p : str) : option (list DirEntry) :=
  match resolve fs p with
  | Some (Dir es) => Some (map (entry_of p) es)
  | _ => None
  end.

Definition dirs_of (es : list (str * node)) : list str :=
  map fst (filter (fun e => is_dir_node (snd e)) es).

Definition nondirs_of (es : list (str * node)) : list str :=
  map fst (filter (fun e => negb (is_dir_node (snd e))) es).

(** [os.walk] from the directory [n] found at [top], top down: the
    triple of a directory comes before those of its sub-directories, which
    follow in the order of the listing. *)
Fixpoint walk_node (top : str) (n : node) : list (str * list str * list str) :=
  match n with
  | Dir es =>
      (top, dirs_of es, nondirs_of es)
        :: flat_map (fun e => walk_node (ntpath.join top (fst e)) (snd e)) es
  | _ => []
  end.

(** [os.walk(p)]; nothing is yielded when [p] cannot be listed. *)
Definition walk (fs : FS.t) (p : str) : list (str * list str * list str) :=
  match resolve fs p with
  | Some n => walk_node p n
  | None => []
  end.

(** A name that is in use, be it by a dangling link. *)
Definition taken (fs : FS.t) (p : str) : bool :=
  match resolve fs p with Some _ => true | None => false end.

(** [os.rename(src, dst)]; [None] when it raises: no source, a target on
    another drive, a target name that is taken already, no directory to put
    the target in, or a name Windows refuses.  The renamed entry goes to
    the end of its new directory. *)
Definition rename (fs : FS.t) (src dst : str) : option FS.t :=
  match resolve fs src, locate src, locate dst with
  | Some x, Some (sc, scs), Some (dc, dcs) =>
      if negb (Ascii.eqb sc dc) || taken fs dst
         || negb (valid_name (last_name dst))
      then None
      else
        match rev scs, rev dcs with
        | sname :: sdir, dname :: ddir =>
            match alter_drive sc (alter_dir (remove_entry sname) (rev sdir)) fs
            with
            | Some fs1 =>
                alter_drive dc
                  (alter_dir (fun es => Some (es ++ [(last_name dst, x)]))
                             (rev ddir)) fs1
            | None => None
            end
        | _, _ => None
        end
  | _, _, _ => None
  end.

End os.

(** ** The tag readers of mutagen

    Each reader raises ([None]) when the file is not there or holds nothing
    it can read; otherwise it gives the values under the title key, if
    any. *)

Module mutagen.

Definition read (fs : FS.t) (p : str) : option (option (list str)) :=
  match FS.resolve fs p with
  | Some (FS.File FS.NoTitle) => Some None
  | Some (FS.File (FS.Title values)) => Some (Some values)
  | _ => None
  end.

(** [EasyID3(path).get("title", default)] *)
Definition EasyID3_title (fs : FS.t) (p : str) (default : list str)
  : option (list str) :=
  option_map (fun t => match t with Some v => v | None => default end)
             (read fs p).

(** [FLAC(path).get("title", default)] *)
Definition FLAC_title := EasyID3_title.

(** [WAVE(path).tags.get("TIT2", default)] *)
Definition WAVE_title := EasyID3_title.

End mutagen.

(** ** The tree widget

    A [QTreeWidgetItem] as the program uses it: the text of column 0, the
    [UserRole] data (the full path; the [Loading...] placeholder has none),
    the [CheckStateRole] data (absent until [setCheckState] is called) and
    the children. *)

Module Qt.

Inductive CheckState := Unchecked | PartiallyChecked | Checked.

Definition CheckState_eqb (a b : CheckState) : bool :=
  match a, b with
  | Unchecked, Unchecked | PartiallyChecked, PartiallyChecked
  | Checked, Checked => true
  | _, _ => false
  end.

Inductive item := Item {
  text : str;
  data : option str;
  check : option CheckState;
  children : list item
}.

Section item_induction.
Variable P : item -> Prop.
Hypothesis HItem :
  forall t d c ch, Forall P ch -> P (Item t d c ch).

Fixpoint item_ind' (it : item) : P it :=
  match it with
  | Item t d c ch =>
      HItem t d c
        ((fix all (l : list item) : Forall P l :=
            match l with
            | [] => Forall_nil _
            | x :: l' => Forall_cons x (item_ind' x) (all l')
            end) ch)
  end.
End item_induction.

(** [item.checkState(0)]: an item without check data reads as unchecked. *)
Definition checkState (it : item) : CheckState :=
  match check it with Some s => s | None => Unchecked end.

(** [QTreeWidgetItem([label])] *)
Definition new_item (label : str) : item := Item label None None [].

(** [item.addChild(child)] *)
Definition addChild (it child : item) : item :=
  Item (text it) (data it) (check it) (children it ++ [child]).

(** [item.takeChildren()], as a statement: the children are dropped. *)
Definition takeChildren (it : item) : item :=
  Item (text it) (data it) (check it) [].

(** Setters on an item that is not in the tree yet: nothing is signalled. *)
Definition setData_detached (it : item) (p : str) : item :=
  Item (text it) (Some p) (check it) (children it).

Definition setCheckState_detached (it : item) (s : CheckState) : item :=
  Item (text it) (data it) (Some s) (children it).

(** The position of an item: the indices to follow from the top-level
    items. *)
Definition ref := list nat.

(** The item reached from [it] along [r]. *)
Fixpoint sub_item (r : ref) (it : item) : option item :=
  match r with
  | [] => Some it
  | i :: r' =>
      match nth_error (children it) i with
      | Some child => sub_item r' child
      | None => None
      end
  end.

Definition get_item (r : ref) (forest : list item) : option item :=
  match r with
  | [] => None
  | i :: r' =>
      match nth_error forest i with
      | Some it => sub_item r' it
      | None => None
      end
  end.

Fixpoint update_nth (i : nat) (f : item -> item) (l : list item)
  : list item :=
  match l, i with
  | [], _ => []
  | x :: l', 0 => f x :: l'
  | x :: l', S k => x :: update_nth k f l'
  end.

(** The item [it] once the item reached along [r] has been changed in
    place by [f]. *)
Fixpoint update_sub (r : ref) (f : item -> item) (it : item) : item :=
  match r with
  | [] => f it
  | i :: r' =>
      Item (text it) (data it) (check it)
           (update_nth i (update_sub r' f) (children it))
  end.

Definition update_item (r : ref) (f : item -> item) (forest : list item)
  : list item :=
  match r with
  | [] => forest
  | i :: r' => update_nth i (update_sub r' f) forest
  end.

End Qt.

Definition loading : str := ("Loading..."%string : str).

(** ** The window: [AudioRenamer] *)

Module AudioRenamer.

Import Qt.

(** *** [list_drives] and [load_all_drives]

    [bitmask] is what [GetLogicalDrives] returns. *)
Definition list_drives (bitmask : nat) : list str :=
  flat_map
    (fun i =>
       if Nat.testbit bitmask i
       then [ascii_of_nat (65 + i) :: ntpath.colon :: [ntpath.sep]]
       else [])
    (seq 0 26).

Definition load_all_drives (bitmask : nat) : list item :=
  map (fun drive =>
         let drive_item := new_item drive in
         let drive_item := setData_detached drive_item drive in
         let drive_item := setCheckState_detached drive_item Unchecked in
         addChild drive_item (new_item loading))
      (list_drives bitmask).

(** *** [on_item_changed] and the [itemChanged] signal

    [child.setCheckState(0, state)] on an item of the tree stores the state
    and, when the stored value changes, the tree emits [itemChanged], to
    which [on_item_changed] is connected; when the value is the one already
    stored, the setter returns and nothing is emitted.  [setCheckState] is
    the setter together with the slot it triggers. *)
Fixpoint setCheckState (state : CheckState) (it : item) : item :=
  match it with
  | Item t d c ch =>
      match c with
      | Some old =>
          if CheckState_eqb old state then it
          else Item t d (Some state) (map (setCheckState state) ch)
      | None => Item t d (Some state) (map (setCheckState state) ch)
      end
  end.

Definition on_item_changed (it : item) : item :=
  let state := checkState it in
  Item (text it) (data it) (check it)
       (map (setCheckState state) (children it)).

(** [item.setText(0, label)] and [item.setData(0, UserRole, p)] on an item
    of the tree: a changed value is signalled as well. *)
Definition setText (label : str) (it : item) : item :=
  if Py.str_eqb (text it) label then it
  else on_item_changed (Item label (data it) (check it) (children it)).

Definition setData (p : str) (it : item) : item :=
  match data it with
  | Some old =>
      if Py.str_eqb old p then it
      else on_item_changed (Item (text it) (Some p) (check it) (children it))
  | None => on_item_changed (Item (text it) (Some p) (check it) (children it))
  end.

(** *** [populate_tree] *)

(** The sort key [(not e.is_dir(), e.name.lower())], compared as Python
    compares tuples. *)
Fixpoint str_leb (a b : str) : bool :=
  match a, b with
  | [], _ => true
  | _ :: _, [] => false
  | x :: a', y :: b' =>
      if nat_of_ascii x <? nat_of_ascii y then true
      else if nat_of_ascii y <? nat_of_ascii x then false
      else str_leb a' b'
  end.

Definition key_leb (a b : os.DirEntry) : bool :=
  match negb (os.is_dir a), negb (os.is_dir b) with
  | false, true => true
  | true, false => false
  | _, _ => str_leb (Py.lower (os.name a)) (Py.lower (os.name b))
  end.

(** [sorted(entries, key=...)]: a stable sort. *)
Fixpoint insert_sorted (e : os.DirEntry) (l : list os.DirEntry)
  : list os.DirEntry :=
  match l with
  | [] => [e]
  | x :: l' => if key_leb e x then e :: l else x :: insert_sorted e l'
  end.

Definition sorted (entries : list os.DirEntry) : list os.DirEntry :=
  fold_right insert_sorted [] entries.

(** The entries that get no item: [entry.is_file() and not
    entry.name.lower().endswith(SUPPORTED_EXTS)]. *)
Definition skipped (e : os.DirEntry) : bool :=
  os.is_file e
  && negb (Py.endswith_any (Py.lower (os.name e)) SUPPORTED_EXTS).

Definition kept (e : os.DirEntry) : bool := negb (skipped e).



(** The entries the claim speaks of: folders, and files with a supported
    extension. *)
Definition folder_or_audio (e : os.DirEntry) : bool :=
  os.is_dir e
  || (os.is_file e
      && Py.endswith_any (Py.lower (os.name e)) SUPPORTED_EXTS).

(** An entry that is neither: a link whose target is gone. *)
Definition neither (e : os.DirEntry) : bool :=
  negb (os.is_dir e) && negb (os.is_file e).

(** The item made for one entry (lines 94-101). *)
Definition entry_item (e : os.DirEntry) : item :=
  let it := new_item (os.name e) in
  let it := setData_detached it (os.path e) in
  let it := setCheckState_detached it Unchecked in
  if os.is_dir e then addChild it (new_item loading) else it.

Definition populate_tree (fs : FS.t) (path : str) (parent_item : item)
  : item :=
  match os.scandir fs path with
  | Some entries =>
      fold_left (fun parent e =>
                   if skipped e then parent
                   else addChild parent (entry_item e))
                (sorted entries) parent_item
  | None => parent_item
  end.

(** *** [on_item_expanded] *)
Definition on_item_expanded (fs : FS.t) (it : item) : item :=
  match data it with
  | None => it
  | Some path =>
      if Py.str_eqb path []
         || match children it with
            | first :: _ => negb (Py.str_eqb (text first) loading)
            | [] => false
            end
      then it
      else
        let it := populate_tree fs path (takeChildren it) in
        match checkState it with
        | Unchecked => it
        | parent_state =>
            Item (text it) (data it) (check it)
                 (map (setCheckState parent_state) (children it))
        end
  end.

(** *** [find_item_by_path] *)
Fixpoint recurse (path : str) (here : ref) (it : item) : option ref :=
  match it with
  | Item _ d _ ch =>
      if match d with Some p => Py.str_eqb p path | None => false end
      then Some here
      else
        (fix each (i : nat) (l : list item) : option ref :=
           match l with
           | [] => None
           | child :: l' =>
               match recurse path (here ++ [i]) child with
               | Some found => Some found
               | None => each (S i) l'
               end
           end) 0 ch
  end.

Fixpoint find_from (path : str) (i : nat) (tops : list item) : option ref :=
  match tops with
  | [] => None
  | top_item :: rest =>
      match recurse path [i] top_item with
      | Some found => Some found
      | None => find_from path (S i) rest
      end
  end.

Definition find_item_by_path (forest : list item) (path : str)
  : option ref :=
  find_from path 0 forest.

(** *** [rename_files]: collecting the checked files *)

Definition supported (name : str) : bool :=
  Py.endswith_any (Py.lower name) SUPPORTED_EXTS.

(** The entries appended for the triples of [os.walk] (lines 141-146). *)
Definition walked (forest : list item)
           (triples : list (str * list str * list str))
  : list (option ref * str) :=
  flat_map
    (fun triple : str * list str * list str =>
       let '(root, _, files) := triple in
       map (fun name =>
              let full_path := ntpath.join root name in
              (find_item_by_path forest full_path, full_path))
           (filter supported files))
    triples.

(** [gather_checked(item)], giving what it appends to [to_rename];
    [here] is the position of [item]. *)
Fixpoint gather_checked (fs : FS.t) (forest : list item)
         (here : ref) (it : item) : list (option ref * str) :=
  match it with
  | Item _ d _ ch =>
      match d with
      | None => []
      | Some path =>
          let below :=
            (fix each (i : nat) (l : list item) : list (option ref * str) :=
               match l with
               | [] => []
               | child :: l' =>
                   gather_checked fs forest (here ++ [i]) child
                     ++ each (S i) l'
               end) 0 ch in
          if CheckState_eqb (checkState it) Checked then
            if os.isfile fs path && supported path
            then (Some here, path) :: below
            else if os.isdir fs path
                 then walked forest (os.walk fs path)
                 else below
          else below
      end
  end.

(** The loop of line 149 over the children [l], the first of which is
    child number [i] of the item at [here]. *)
Fixpoint gather_children (fs : FS.t) (forest : list item) (here : ref)
         (i : nat) (l : list item) : list (option ref * str) :=
  match l with
  | [] => []
  | child :: l' =>
      gather_checked fs forest (here ++ [i]) child
        ++ gather_children fs forest here (S i) l'
  end.

Fixpoint gather_from (fs : FS.t) (forest : list item) (i : nat)
         (tops : list item) : list (option ref * str) :=
  match tops with
  | [] => []
  | top_item :: rest =>
      gather_checked fs forest [i] top_item
        ++ gather_from fs forest (S i) rest
  end.

(** The list [to_rename] when the loop of line 152 is done. *)
Definition to_rename (fs : FS.t) (forest : list item)
  : list (option ref * str) :=
  gather_from fs forest 0 forest.

(** *** [rename_files]: the rename loop *)

Record state := {
  disk : FS.t;
  tree : list item;
  folders_to_refresh : list str;
  renamed : nat
}.

(** The first [try] block up to the title; [None] when the loop moves on
    to the next file, by [continue] or through the [except]. *)
Definition read_title (fs : FS.t) (path file_name ext : str) : option str :=
  if Py.str_eqb ext (".mp3"%string : str) then
    option_map Py.join_empty
      (mutagen.EasyID3_title fs path [Py.drop_last 4 file_name])
  else if Py.str_eqb ext (".flac"%string : str) then
    option_map Py.join_empty
      (mutagen.FLAC_title fs path [Py.drop_last 5 file_name])
  else if Py.str_eqb ext (".wav"%string : str) then
    option_map Py.join_empty
      (mutagen.WAVE_title fs path [Py.drop_last 4 file_name])
  else None.

Definition extension (file_name : str) : str :=
  Py.lower (snd (ntpath.splitext file_name)).

(** The title the loop has for a file when it gets as far as line 172,
    and the path it computes from it. *)
Definition title_of (fs : FS.t) (path : str) : option str :=
  let file_name := snd (ntpath.split path) in
  read_title fs path file_name (extension file_name).

Definition new_path_of (fs : FS.t) (path : str) : option str :=
  let (folder, file_name) := ntpath.split path in
  option_map (fun title => ntpath.join folder (title ++ extension file_name))
             (title_of fs path).

(** [folders_to_refresh.add(folder)] *)
Definition set_add (folder : str) (folders : list str) : list str :=
  if existsb (Py.str_eqb folder) folders then folders
  else folders ++ [folder].

(** One turn of the loop of line 156. *)
Definition rename_one (st : state) (entry : option ref * str) : state :=
  let (item, path) := entry in
  let folder := fst (ntpath.split path) in
  match new_path_of (disk st) path with
  | None => st
  | Some new_path =>
      if os.exists_ (disk st) new_path then st
      else
        match os.rename (disk st) path new_path with
        | None => st
        | Some fs' =>
            {| disk := fs';
               tree :=
                 match item with
                 | Some r =>
                     update_item r
                       (fun it =>
                          setData new_path
                                  (setText (ntpath.basename new_path) it))
                       (tree st)
                 | None => tree st
                 end;
               folders_to_refresh := set_add folder (folders_to_refresh st);
               renamed := S (renamed st) |}
        end
  end.

Definition rename_loop (st : state) (entries : list (option ref * str))
  : state :=
  fold_left rename_one entries st.

(** *** [rename_files]: the refresh of the folders (lines 189-193) *)
Definition refresh_item (fs : FS.t) (folder : str) (it : item) : item :=
  populate_tree fs folder (takeChildren it).

Definition refresh_folder (fs : FS.t) (forest : list item) (folder : str)
  : list item :=
  match find_item_by_path forest folder with
  | Some r => update_item r (refresh_item fs folder) forest
  | None => forest
  end.

(** [for folder in folders_to_refresh]: a Python [set] is gone through in
    an order of its own, which depends on the hashes of its members and not
    on what the program does.  All that is known of it is that every member
    comes once. *)
Record set_order := {
  iterate : list str -> list str;
  iterate_perm : forall l, Permutation (iterate l) l
}.

(** One such order: that in which the members were added. *)
Definition insertion_order : set_order :=
  {| iterate := fun l => l; iterate_perm := @Permutation_refl str |}.

(** Another: the last added first. *)
Definition reverse_order : set_order :=
  {| iterate := @rev str;
     iterate_perm := fun l => Permutation_sym (Permutation_rev l) |}.

(** [rename_files]: the disk and the tree it leaves, and the count its
    message box shows, for the order [o] in which the set of folders is
    gone through. *)
Definition rename_files (o : set_order) (fs : FS.t) (forest : list item)
  : FS.t * list item * nat :=
  let st := rename_loop {| disk := fs; tree := forest;
                           folders_to_refresh := []; renamed := 0 |}
                        (to_rename fs forest) in
  (disk st,
   fold_left (refresh_folder (disk st))
             (iterate o (folders_to_refresh st)) (tree st),
   renamed st).

(** *** What the properties speak of *)

(** A path on a lettered drive, as are all the paths under the items of
    [load_all_drives]. *)
Definition on_lettered_drive (p : str) : bool :=
  match p with
  | _ :: c :: _ => Ascii.eqb c ntpath.colon
  | _ => false
  end.

(** A title with neither a separator nor a colon in it. *)
Definition plain (title : str) : bool :=
  forallb (fun c => negb (ntpath.is_sep c)
                    && negb (Ascii.eqb c ntpath.colon)) title.

(** A title with neither [\] nor [/] in it. *)
Definition no_separator (title : str) : bool :=
  forallb ntpath.not_sep title.


(** The tree mirrors the disk: a child item whose path is a folder on the
    disk stores the path of that folder as an entry of the folder of its
    parent item, as [populate_tree] stores it. *)
Definition child_mirrors (fs : FS.t) (parent child : item) : Prop :=
  forall cp ces,
    data child = Some cp -> FS.resolve fs cp = Some (FS.Dir ces) ->
    exists p es name,
      data parent = Some p /\ FS.resolve fs p = Some (FS.Dir es)
      /\ In (name, FS.Dir ces) es /\ cp = ntpath.join p name.

Fixpoint mirrors (fs : FS.t) (it : item) : Prop :=
  match it with
  | Item _ _ _ ch =>
      (fix all (l : list item) : Prop :=
         match l with
         | [] => True
         | child :: l' =>
             child_mirrors fs it child /\ mirrors fs child /\ all l'
         end) ch
  end.

(** Every item of the tree below [it], [it] included, passes [p]. *)
Fixpoint every (p : item -> bool) (it : item) : bool :=
  p it && forallb (every p) (children it).

Definition is_checked (it : item) : bool :=
  CheckState_eqb (checkState it) Checked.

(** The item stores the state [s]. *)
Definition holds (s : CheckState) (it : item) : bool :=
  match check it with
  | Some stored => CheckState_eqb stored s
  | None => false
  end.

(** The test of line 76 lets the item through: it has no child, or its
    first child reads [Loading...]. *)
Definition unloaded (it : item) : bool :=
  match children it with
  | first :: _ => Py.str_eqb (text first) loading
  | [] => true
  end.

(** Lines 82 to 86: the state of an item that is checked or partially
    checked goes to its children. *)
Definition spread (it : item) : item :=
  match checkState it with
  | Unchecked => it
  | parent_state =>
      Item (text it) (data it) (check it)
           (map (setCheckState parent_state) (children it))
  end.

(** The state [rename_files] starts its loop in. *)
Definition initial (fs : FS.t) (forest : list item) : state :=
  {| disk := fs; tree := forest; folders_to_refresh := []; renamed := 0 |}.

End AudioRenamer.

(** ** Sample disks and trees *)

Module Sample.

Import Qt AudioRenamer.

Definition bs : str := [ntpath.sep].

(** [C:\], [C:\music] and files in it. *)
Definition C_root : str := ("C:"%string : str) ++ bs.
Definition music : str := C_root ++ ("music"%string : str).
Definition in_music (name : string) : str := music ++ bs ++ (name : str).

(** The drive item [load_all_drives] makes for [C:\]. *)
Definition drive_item : item :=
  Item C_root (Some C_root) (Some Unchecked) [new_item loading].

(** [/music] with [track1.mp3] (title [Sunrise]) and [track2.mp3] (no
    title), and a [Sunrise.mp3] that is there already. *)
Definition disk_collision : FS.t :=
  [("C"%char,
    FS.Dir [(("music"%string : str),
             FS.Dir [(("track1.mp3"%string : str),
                      FS.File (FS.Title [("Sunrise"%string : str)]));
                     (("track2.mp3"%string : str), FS.File FS.NoTitle);
                     (("Sunrise.mp3"%string : str), FS.File FS.NoTitle);
                     (("broken.mp3"%string : str), FS.File FS.Unreadable);
                     (("notes.txt"%string : str), FS.File FS.Unreadable);
                     (("Live"%string : str),
                      FS.Dir [(("Encore.WAV"%string : str),
                               FS.File FS.NoTitle)])])])].

(** What [os.scandir] yields for [C:\music]. *)
Definition music_entries : list os.DirEntry :=
  map (os.entry_of music)
      [(("track1.mp3"%string : str),
        FS.File (FS.Title [("Sunrise"%string : str)]));
       (("track2.mp3"%string : str), FS.File FS.NoTitle);
       (("Sunrise.mp3"%string : str), FS.File FS.NoTitle);
       (("broken.mp3"%string : str), FS.File FS.Unreadable);
       (("notes.txt"%string : str), FS.File FS.Unreadable);
       (("Live"%string : str),
        FS.Dir [(("Encore.WAV"%string : str), FS.File FS.NoTitle)])].

(** A folder item [A] with a folder [B] in it and a file in [B], all
    unchecked. *)
Definition nested (a b c : CheckState) : item :=
  Item ("A"%string : str) (Some (in_music "A")) (Some a)
    [Item ("B"%string : str) (Some (in_music "A\B")) (Some b)
       [Item ("c.mp3"%string : str) (Some (in_music "A\B\c.mp3"))
             (Some c) []]].

(** The user checks [B] and unchecks the file in it; then the user checks
    [A]. *)
Definition nested_before_last_click : item :=
  update_sub [0; 0] (setCheckState Unchecked)
    (update_sub [0] (setCheckState Checked)
       (nested Unchecked Unchecked Unchecked)).

Definition nested_after_clicks : item :=
  setCheckState Checked nested_before_last_click.

(** [C:\] and [C:\music] expanded, and [track1.mp3] alone checked. *)
Definition tree_file_checked : list item :=
  update_item [0; 0; 3] (setCheckState Checked)
    (update_item [0; 0] (on_item_expanded disk_collision)
       [on_item_expanded disk_collision drive_item]).


(** The item of [C:\music] in that tree. *)
Definition music_item : item :=
  match get_item [0; 0] tree_file_checked with
  | Some it => it
  | None => new_item []
  end.

(** [C:\music] with [first.mp3], whose title is the name of the file next
    to it, and [second.mp3]; and the tree with the folder expanded and
    checked. *)
Definition disk_chain : FS.t :=
  [("C"%char,
    FS.Dir [(("music"%string : str),
             FS.Dir [(("first.mp3"%string : str),
                      FS.File (FS.Title [("second"%string : str)]));
                     (("second.mp3"%string : str),
                      FS.File (FS.Title [("third"%string : str)]))])])].

Definition tree_chain : list item :=
  update_item [0; 0]
    (fun it => setCheckState Checked (on_item_expanded disk_chain it))
    [on_item_expanded disk_chain drive_item].

Definition state_chain : state :=
  {| disk := disk_chain; tree := tree_chain;
     folders_to_refresh := []; renamed := 0 |}.

(** [C:\music] with a file whose title has a separator in it, next to a
    folder of the name before the separator; and a file with its extension
    in upper case and no title. *)
Definition disk_slash : FS.t :=
  [("C"%char,
    FS.Dir [(("music"%string : str),
             FS.Dir [(("track1.mp3"%string : str),
                      FS.File (FS.Title [("Live/Sunrise"%string : str)]));
                     (("TRACK2.MP3"%string : str), FS.File FS.NoTitle);
                     (("Live"%string : str), FS.Dir [])])])].

(** The same title, with a folder [Live] in the folder [Live], and the
    folder [C:\music] expanded and checked. *)
Definition disk_live_live : FS.t :=
  [("C"%char,
    FS.Dir [(("music"%string : str),
             FS.Dir [(("track1.mp3"%string : str),
                      FS.File (FS.Title [("Live/Sunrise"%string : str)]));
                     (("Live"%string : str),
                      FS.Dir [(("Live"%string : str), FS.Dir [])])])])].

Definition tree_live_live : list item :=
  update_item [0; 0]
    (fun it => setCheckState Checked (on_item_expanded disk_live_live it))
    [on_item_expanded disk_live_live drive_item].

Definition state_slash : state :=
  {| disk := disk_slash; tree := [drive_item];
     folders_to_refresh := []; renamed := 0 |}.

(** The tree of [disk_slash] with [C:\] and [C:\music] expanded; the item
    of [track1.mp3] is the second child of [C:\music]. *)
Definition tree_slash : list item :=
  update_item [0; 0] (on_item_expanded disk_slash)
    [on_item_expanded disk_slash drive_item].

Definition state_slash_shown : state :=
  {| disk := disk_slash; tree := tree_slash;
     folders_to_refresh := []; renamed := 0 |}.

(** [C:\music] with a titled file in it and one in its folder [Live];
    the tree with [C:\], [C:\music] and [C:\music\Live] expanded and
    [C:\music] checked, and with it all that is shown below it. *)
Definition disk_two : FS.t :=
  [("C"%char,
    FS.Dir [(("music"%string : str),
             FS.Dir [(("a.mp3"%string : str),
                      FS.File (FS.Title [("Dawn"%string : str)]));
                     (("Live"%string : str),
                      FS.Dir [(("b.mp3"%string : str),
                               FS.File (FS.Title
                                          [("Dusk"%string : str)]))])])])].

Definition tree_two : list item :=
  update_item [0; 0] (setCheckState Checked)
    (update_item [0; 0; 0] (on_item_expanded disk_two)
       (update_item [0; 0] (on_item_expanded disk_two)
          [on_item_expanded disk_two drive_item])).



(** A disk that Windows cannot hold when the name has a colon in it: a
    file without a title, under that name. *)
Definition state_odd (name : str) : state :=
  {| disk := [("C"%char,
               FS.Dir [(("music"%string : str),
                        FS.Dir [(name, FS.File FS.NoTitle)])])];
     tree := [drive_item];
     folders_to_refresh := []; renamed := 0 |}.

Definition state_collision : state :=
  {| disk := disk_collision; tree := [drive_item];
     folders_to_refresh := []; renamed := 0 |}.

(** The tree once [C:\] and [C:\music] have been expanded and the folder
    [music] checked. *)
Definition tree_music_checked : list item :=
  update_item [0; 0]
    (fun it => setCheckState Checked (on_item_expanded disk_collision it))
    [on_item_expanded disk_collision drive_item].

(** [C:\music] with two links whose targets are gone, next to a file and a
    folder. *)
Definition link_entries : list (str * FS.node) :=
  [(("song.mp3"%string : str), FS.File (FS.Title [("Sunrise"%string : str)]));
   (("ghost.txt"%string : str), FS.Dangling);
   (("notes.txt"%string : str), FS.File FS.Unreadable);
   (("ghost.mp3"%string : str), FS.Dangling);
   (("Live"%string : str), FS.Dir [])].

Definition disk_link : FS.t :=
  [("C"%char, FS.Dir [(("music"%string : str), FS.Dir link_entries)])].

(** The tree of [disk_link] with [C:\] expanded and [C:\music] checked
    without having been expanded. *)
Definition tree_link : list item :=
  update_item [0; 0] (setCheckState Checked)
    [on_item_expanded disk_link drive_item].

End Sample.

(** * Properties *)

Unset Implicit Arguments.

Import Qt AudioRenamer.

(** ** The path functions on the examples of the Python documentation *)

Example splitdrive_letter :
  ntpath.splitdrive ("c:/dir"%string : str)
  = (("c:"%string : str), ("/dir"%string : str)).
Proof. reflexivity. Qed.

Example splitdrive_unc :
  ntpath.splitdrive ("//host/computer/dir"%string : str)
  = (("//host/computer"%string : str), ("/dir"%string : str)).
Proof. reflexivity. Qed.

Example join_drive_relative :
  ntpath.join ("c:"%string : str) ("foo"%string : str)
  = ("c:foo"%string : str).
Proof. reflexivity. Qed.

Example join_absolute :
  ntpath.join ("C:\music"%string : str) ("\other"%string : str)
  = ("C:\other"%string : str).
Proof. reflexivity. Qed.

Example split_file :
  ntpath.split ("C:\music\\track1.mp3"%string : str)
  = (("C:\music"%string : str), ("track1.mp3"%string : str)).
Proof. reflexivity. Qed.

Example split_root :
  ntpath.split ("C:\track1.mp3"%string : str)
  = (("C:\"%string : str), ("track1.mp3"%string : str)).
Proof. reflexivity. Qed.

Example splitext_last_dot :
  ntpath.splitext ("foo.bar.exe"%string : str)
  = (("foo.bar"%string : str), (".exe"%string : str)).
Proof. reflexivity. Qed.

Example splitext_leading_dot :
  ntpath.splitext (".cshrc"%string : str) = ((".cshrc"%string : str), []).
Proof. reflexivity. Qed.

Example splitext_leading_dots :
  ntpath.splitext ("/foo/....jpg"%string : str)
  = (("/foo/....jpg"%string : str), []).
Proof. reflexivity. Qed.

Example supported_any_case :
  supported ("C:\music\Live\Encore.WAV"%string : str) = true
  /\ supported ("notes.txt"%string : str) = false.
Proof. split; reflexivity. Qed.

(** ** Items and their positions *)

Lemma nth_error_update_nth (f : item -> item) l i :
  nth_error (update_nth i f l) i = option_map f (nth_error l i).
Proof.
  revert i; induction l as [|x l IH]; intros [|i]; simpl; auto.
Qed.

Lemma sub_item_update_sub f r : forall it,
  sub_item r (update_sub r f it) = option_map f (sub_item r it).
Proof.
  induction r as [|i r IH]; intros it; simpl; [reflexivity|].
  rewrite nth_error_update_nth.
  destruct (nth_error (children it) i); simpl; auto.
Qed.

Lemma get_item_update_item f r forest :
  get_item r (update_item r f forest) = option_map f (get_item r forest).
Proof.
  destruct r as [|i r]; simpl; [reflexivity|].
  rewrite nth_error_update_nth.
  destruct (nth_error forest i); simpl; auto using sub_item_update_sub.
Qed.

Lemma sub_item_app r1 r2 it :
  sub_item (r1 ++ r2) it =
  match sub_item r1 it with Some x => sub_item r2 x | None => None end.
Proof.
  revert it; induction r1 as [|i r1 IH]; intros it; simpl; [reflexivity|].
  destruct (nth_error (children it) i); auto.
Qed.

(** [find_item_by_path] gives the position of an item that is in the tree
    and stores the path looked for. *)
Lemma recurse_found path : forall it here r,
  recurse path here it = Some r ->
  exists r' x, r = here ++ r' /\ sub_item r' it = Some x
               /\ data x = Some path.
Proof.
  induction it as [t d c ch IH] using item_ind'; intros here r H.
  simpl in H.
  destruct (match d with Some p => Py.str_eqb p path | None => false end)
    eqn:Hd.
  - inversion H; subst. exists [], (Item t d c ch).
    rewrite app_nil_r. repeat split. simpl.
    destruct d as [p|]; [|discriminate].
    unfold Py.str_eqb in Hd. destruct (list_eq_dec ascii_dec p path);
      [subst; reflexivity | discriminate].
  - clear Hd.
    assert (G : forall l i,
      Forall (fun it => forall here r, recurse path here it = Some r ->
         exists r' x, r = here ++ r' /\ sub_item r' it = Some x
                      /\ data x = Some path) l ->
      (fix each (i : nat) (l : list item) : option ref :=
         match l with
         | [] => None
         | child :: l' =>
             match recurse path (here ++ [i]) child with
             | Some found => Some found
             | None => each (S i) l'
             end
         end) i l = Some r ->
      exists k child r' x, nth_error l k = Some child /\
         r = here ++ [i + k] ++ r' /\ sub_item r' child = Some x
         /\ data x = Some path).
    { induction l as [|child l IHl]; intros i HF Hl; [discriminate|].
      inversion HF as [|? ? Hc HF']; subst.
      destruct (recurse path (here ++ [i]) child) eqn:Hr.
      - inversion Hl; subst. apply Hc in Hr.
        destruct Hr as (r' & x & -> & Hs & Hx).
        exists 0, child, r', x. rewrite Nat.add_0_r, <- app_assoc.
        auto.
      - destruct (IHl (S i) HF' Hl) as (k & ch' & r' & x & Hn & -> & Hs & Hx).
        exists (S k), ch', r', x. rewrite Nat.add_succ_r. auto. }
    destruct (G ch 0 IH H) as (k & child & r' & x & Hn & -> & Hs & Hx).
    exists (k :: r'), x. simpl. rewrite Hn. auto.
Qed.

Lemma find_from_found path : forall tops i r,
  find_from path i tops = Some r ->
  exists k top r' x, nth_error tops k = Some top /\ r = (i + k) :: r'
                     /\ sub_item r' top = Some x /\ data x = Some path.
Proof.
  induction tops as [|top tops IH]; intros i r H; [discriminate|].
  simpl in H. destruct (recurse path [i] top) eqn:Hr.
  - inversion H; subst. apply recurse_found in Hr.
    destruct Hr as (r' & x & -> & Hs & Hx).
    exists 0, top, r', x. rewrite Nat.add_0_r. auto.
  - destruct (IH _ _ H) as (k & top' & r' & x & Hn & -> & Hs & Hx).
    exists (S k), top', r', x. rewrite Nat.add_succ_r. auto.
Qed.

Lemma find_item_by_path_found forest path r :
  find_item_by_path forest path = Some r ->
  exists x, get_item r forest = Some x /\ data x = Some path.
Proof.
  intros H. apply find_from_found in H.
  destruct H as (k & top & r' & x & Hn & -> & Hs & Hx).
  exists x. simpl. rewrite Hn. auto.
Qed.

(** ** The rename loop *)

Lemma rename_loop_cons st entry rest :
  rename_loop st (entry :: rest) = rename_loop (rename_one st entry) rest.
Proof. reflexivity. Qed.

Lemma read_title_unreadable fs path file_name ext :
  mutagen.read fs path = None -> read_title fs path file_name ext = None.
Proof.
  intros H. unfold read_title, mutagen.FLAC_title, mutagen.WAVE_title,
    mutagen.EasyID3_title. rewrite H. simpl.
  repeat match goal with |- context [if ?b then _ else _] => destruct b end;
    reflexivity.
Qed.

(** C3.  When the path computed for a collected file is already there, the
    turn of the loop changes nothing: the disk is as it was (nothing is
    renamed or overwritten), the count of renames is as it was, and the loop
    goes on with the files that remain. *)
Theorem existing_target_is_skipped st item path new_path rest :
  new_path_of (disk st) path = Some new_path ->
  os.exists_ (disk st) new_path = true ->
  disk (rename_one st (item, path)) = disk st
  /\ renamed (rename_one st (item, path)) = renamed st
  /\ rename_one st (item, path) = st
  /\ rename_loop st ((item, path) :: rest) = rename_loop st rest.
Proof.
  intros Hnew Hex.
  assert (E : rename_one st (item, path) = st).
  { unfold rename_one. rewrite Hnew, Hex. reflexivity. }
  rewrite rename_loop_cons, E. auto.
Qed.

Lemma existing_target_is_skipped_witness :
  let st := Sample.state_collision in
  let path := Sample.in_music "track1.mp3" in
  let new_path := Sample.in_music "Sunrise.mp3" in
  (new_path_of (disk st) path = Some new_path
   /\ os.exists_ (disk st) new_path = true)
  /\ disk (rename_one st (Some [0; 0; 1], path)) = disk st
  /\ renamed (rename_one st (Some [0; 0; 1], path)) = renamed st
  /\ rename_one st (Some [0; 0; 1], path) = st
  /\ rename_loop st [(Some [0; 0; 1], path); (None, Sample.in_music "track2.mp3")]
     = rename_loop st [(None, Sample.in_music "track2.mp3")].
Proof.
  intros st path new_path.
  split; [split; vm_compute; reflexivity|].
  apply (@existing_target_is_skipped st (Some [0; 0; 1]) path new_path);
    vm_compute; reflexivity.
Defined.

(** C8.  When the tag reader fails on a collected file, the turn of the loop
    changes nothing (no rename, the count as it was, nothing raised) and the
    loop goes on with the files that remain. *)
Theorem unreadable_file_is_skipped st item path rest :
  mutagen.read (disk st) path = None ->
  new_path_of (disk st) path = None
  /\ rename_one st (item, path) = st
  /\ renamed (rename_one st (item, path)) = renamed st
  /\ rename_loop st ((item, path) :: rest) = rename_loop st rest.
Proof.
  intros Hread.
  assert (N : new_path_of (disk st) path = None).
  { unfold new_path_of, title_of.
    destruct (ntpath.split path) as [folder file_name].
    rewrite read_title_unreadable by assumption. reflexivity. }
  assert (E : rename_one st (item, path) = st).
  { unfold rename_one. rewrite N. reflexivity. }
  rewrite rename_loop_cons, E. auto.
Qed.

Lemma unreadable_file_is_skipped_witness :
  let st := Sample.state_collision in
  let path := Sample.in_music "broken.mp3" in
  mutagen.read (disk st) path = None
  /\ new_path_of (disk st) path = None
  /\ rename_one st (None, path) = st
  /\ renamed (rename_one st (None, path)) = renamed st
  /\ rename_loop st [(None, path); (None, Sample.in_music "track1.mp3")]
     = rename_loop st [(None, Sample.in_music "track1.mp3")].
Proof.
  intros st path.
  split; [vm_compute; reflexivity|].
  apply (@unreadable_file_is_skipped st None path); vm_compute; reflexivity.
Defined.

(** ** [populate_tree] *)

Lemma populate_fold entries : forall parent,
  fold_left (fun parent e =>
               if skipped e then parent else addChild parent (entry_item e))
            entries parent
  = Item (text parent) (data parent) (check parent)
         (children parent ++ map entry_item (filter kept entries)).
Proof.
  induction entries as [|e entries IH]; intros parent; simpl.
  - rewrite app_nil_r. destruct parent; reflexivity.
  - rewrite IH. unfold kept. destruct (skipped e); simpl; [reflexivity|].
    rewrite <- app_assoc. reflexivity.
Qed.

Lemma populate_tree_listed fs path parent entries :
  os.scandir fs path = Some entries ->
  populate_tree fs path parent
  = Item (text parent) (data parent) (check parent)
         (children parent ++ map entry_item (filter kept (sorted entries))).
Proof.
  intros H. unfold populate_tree. rewrite H. apply populate_fold.
Qed.

Lemma populate_tree_unlisted fs path parent :
  os.scandir fs path = None -> populate_tree fs path parent = parent.
Proof. intros H. unfold populate_tree. rewrite H. reflexivity. Qed.

Lemma entry_item_unchecked e : check (entry_item e) = Some Unchecked.
Proof. unfold entry_item. destruct (os.is_dir e); reflexivity. Qed.

(** *** The order of the children *)







Lemma insert_sorted_perm e : forall l, Permutation (insert_sorted e l) (e :: l).
Proof.
  induction l as [|x l IH]; simpl; [reflexivity|].
  destruct (key_leb e x); [reflexivity|].
  rewrite IH. apply perm_swap.
Qed.

Lemma sorted_perm : forall l, Permutation (sorted l) l.
Proof.
  induction l as [|x l IH]; simpl; [reflexivity|].
  rewrite insert_sorted_perm. now constructor.
Qed.





(** The test of line 91 lets through the folders, the files with a
    supported extension, and the entries that are neither a file nor a
    folder, whatever their names. *)
Lemma kept_cases e : kept e = folder_or_audio e || neither e.
Proof.
  unfold kept, skipped, folder_or_audio, neither, os.is_file, os.is_dir.
  destruct (os.target e);
    destruct (Py.endswith_any (Py.lower (os.name e)) SUPPORTED_EXTS);
    reflexivity.
Qed.




(** ** The refresh of the folders *)

Lemma nth_error_update_nth_other (f : item -> item) l : forall i j,
  i <> j -> nth_error (update_nth i f l) j = nth_error l j.
Proof.
  induction l as [|x l IH]; intros [|i] [|j] H; simpl; auto;
    try congruence.
Qed.

Lemma get_item_app r q forest :
  r <> [] ->
  get_item (r ++ q) forest
  = match get_item r forest with
    | Some it => sub_item q it
    | None => None
    end.
Proof.
  destruct r as [|i r]; [congruence|]. intros _. simpl.
  destruct (nth_error forest i); [apply sub_item_app|reflexivity].
Qed.

(** What is below a new item: nothing, or the placeholder. *)
Lemma entry_item_below e q x :
  q <> [] -> sub_item q (entry_item e) = Some x -> checkState x = Unchecked.
Proof.
  intros Hq H. destruct q as [|j q]; [congruence|].
  unfold entry_item in H. destruct (os.is_dir e); simpl in H.
  - destruct j as [|j]; simpl in H; [|destruct j; discriminate H].
    destruct q as [|k q]; simpl in H.
    + inversion H; subst. reflexivity.
    + destruct k; discriminate H.
  - destruct j; discriminate H.
Qed.

(** The refresh keeps the state of the item and leaves nothing checked
    below it. *)
Lemma refresh_item_check fs folder it :
  check (refresh_item fs folder it) = check it.
Proof.
  unfold refresh_item. destruct (os.scandir fs folder) as [entries|] eqn:H.
  - now rewrite (populate_tree_listed _ _ _ _ H).
  - now rewrite (populate_tree_unlisted _ _ _ H).
Qed.

Lemma refresh_item_below fs folder it q x :
  q <> [] -> sub_item q (refresh_item fs folder it) = Some x ->
  checkState x = Unchecked.
Proof.
  intros Hq H. destruct q as [|j q]; [congruence|].
  unfold refresh_item in H.
  destruct (os.scandir fs folder) as [entries|] eqn:Hs.
  - rewrite (populate_tree_listed _ _ _ _ Hs) in H. simpl in H.
    destruct (nth_error (map entry_item (filter kept (sorted entries))) j)
      as [child|] eqn:E; [|discriminate H].
    apply nth_error_In, in_map_iff in E. destruct E as (e & <- & _).
    destruct q as [|k q].
    + simpl in H. inversion H; subst. unfold checkState.
      now rewrite entry_item_unchecked.
    + eapply entry_item_below; [|exact H]. discriminate.
  - rewrite (populate_tree_unlisted _ _ _ Hs) in H. simpl in H.
    destruct j; discriminate H.
Qed.

(** An item of a tree in which a folder has been refreshed stands where an
    item of the same state stood before, or is unchecked. *)
Lemma update_sub_states (F : item -> item) :
  (forall it, check (F it) = check it) ->
  (forall it q x, q <> [] -> sub_item q (F it) = Some x ->
                  checkState x = Unchecked) ->
  forall r it q x,
    sub_item q (update_sub r F it) = Some x ->
    (exists y, sub_item q it = Some y /\ checkState y = checkState x)
    \/ checkState x = Unchecked.
Proof.
  intros HF1 HF2. induction r as [|i r IH]; intros it q x H.
  - simpl in H. destruct q as [|j q].
    + simpl in H. inversion H; subst. left. exists it.
      split; [reflexivity|]. unfold checkState. now rewrite HF1.
    + right. eapply HF2; [|exact H]. discriminate.
  - cbn [update_sub] in H. destruct q as [|j q].
    + simpl in H. inversion H; subst. left. exists it.
      split; reflexivity.
    + cbn [sub_item children] in H |- *.
      destruct (Nat.eq_dec i j) as [->|Hij].
      * rewrite nth_error_update_nth in H.
        destruct (nth_error (children it) j) as [child|];
          [|discriminate H].
        simpl in H. now apply IH.
      * rewrite nth_error_update_nth_other in H by assumption.
        left. exists x. split; [|reflexivity].
        destruct (nth_error (children it) j); [exact H|discriminate H].
Qed.

Lemma update_item_states (F : item -> item) r forest q x :
  (forall it, check (F it) = check it) ->
  (forall it q x, q <> [] -> sub_item q (F it) = Some x ->
                  checkState x = Unchecked) ->
  get_item q (update_item r F forest) = Some x ->
  (exists y, get_item q forest = Some y /\ checkState y = checkState x)
  \/ checkState x = Unchecked.
Proof.
  intros HF1 HF2 H. destruct r as [|i r]; [left; eauto|].
  destruct q as [|j q]; [discriminate H|].
  cbn [update_item get_item] in H |- *.
  destruct (Nat.eq_dec i j) as [->|Hij].
  - rewrite nth_error_update_nth in H.
    destruct (nth_error forest j) as [top|]; [|discriminate H].
    simpl in H. now apply (update_sub_states F HF1 HF2 r).
  - rewrite nth_error_update_nth_other in H by assumption.
    left. exists x. split; [exact H|reflexivity].
Qed.

Lemma refresh_folder_states fs forest folder q x :
  get_item q (refresh_folder fs forest folder) = Some x ->
  (exists y, get_item q forest = Some y /\ checkState y = checkState x)
  \/ checkState x = Unchecked.
Proof.
  unfold refresh_folder.
  destruct (find_item_by_path forest folder) as [r|]; [|left; eauto].
  apply update_item_states.
  - apply refresh_item_check.
  - apply refresh_item_below.
Qed.

Lemma refresh_folders_states fs folders : forall forest q x,
  get_item q (fold_left (refresh_folder fs) folders forest) = Some x ->
  (exists y, get_item q forest = Some y /\ checkState y = checkState x)
  \/ checkState x = Unchecked.
Proof.
  induction folders as [|folder folders IH]; intros forest q x H.
  - left. eauto.
  - simpl in H. destruct (IH _ _ _ H) as [(y & Hy & Hc)|Hu]; [|now right].
    destruct (refresh_folder_states _ _ _ _ _ Hy) as [(z & Hz & Hc')|Hu].
    + left. exists z. split; [exact Hz|congruence].
    + right. congruence.
Qed.

(** C10.  [rename_files] goes through the folders recorded by the loop, in
    the order the set gives them, whatever that order is.  When the turn of
    a folder comes and an item is found for it, the children of that item
    are taken away and made anew from the listing of the folder on the disk
    the loop has left: one child for each entry that is a folder, a
    supported file or neither a file nor a folder, in the order of the
    sort, and every one of them unchecked, whatever was checked below the
    item before.  The tree [rename_files] leaves is the tree so refreshed,
    with the folders that remain refreshed after it; and in that tree
    nothing is checked at any place below that of the item, whatever the
    later refreshes have put there. *)
Theorem refreshed_children_are_unchecked
        o fs forest before folder after r entries :
  let st := rename_loop (initial fs forest) (to_rename fs forest) in
  let shown := fold_left (refresh_folder (disk st)) before (tree st) in
  let listed :=
    filter (fun e => folder_or_audio e || neither e) (sorted entries) in
  let left_by_rename_files := snd (fst (rename_files o fs forest)) in
  iterate o (folders_to_refresh st) = before ++ folder :: after ->
  find_item_by_path shown folder = Some r ->
  os.scandir (disk st) folder = Some entries ->
  exists old,
    get_item r shown = Some old
    /\ get_item r (refresh_folder (disk st) shown folder)
       = Some (Item (text old) (data old) (check old)
                    (map entry_item listed))
    /\ Forall (fun child => checkState child = Unchecked)
              (map entry_item listed)
    /\ left_by_rename_files
       = fold_left (refresh_folder (disk st)) after
                   (refresh_folder (disk st) shown folder)
    /\ forall q x,
         q <> [] -> get_item (r ++ q) left_by_rename_files = Some x ->
         checkState x = Unchecked.
Proof.
  intros st shown listed final Horder Hfind Hscan.
  destruct (find_item_by_path_found _ _ _ Hfind) as (old & Hget & _).
  assert (Hnew : get_item r (refresh_folder (disk st) shown folder)
                 = Some (refresh_item (disk st) folder old)).
  { unfold refresh_folder.
    now rewrite Hfind, get_item_update_item, Hget. }
  assert (Hfinal : final
                   = fold_left (refresh_folder (disk st)) after
                               (refresh_folder (disk st) shown folder)).
  { unfold final, rename_files. fold (initial fs forest). fold st.
    cbn [fst snd]. rewrite Horder, fold_left_app. reflexivity. }
  exists old. split; [assumption|]. split; [|split; [|split]].
  - rewrite Hnew. unfold refresh_item.
    rewrite (populate_tree_listed _ _ _ _ Hscan).
    unfold listed. now rewrite (filter_ext _ _ kept_cases).
  - apply Forall_forall. intros child Hin. apply in_map_iff in Hin.
    destruct Hin as (e & <- & _). unfold checkState.
    now rewrite entry_item_unchecked.
  - exact Hfinal.
  - intros q x Hq Hx. rewrite Hfinal in Hx.
    destruct (refresh_folders_states _ _ _ _ _ Hx) as [(y & Hy & Hc)|Hu];
      [|exact Hu].
    rewrite <- Hc. rewrite get_item_app, Hnew in Hy.
    + eapply refresh_item_below; eassumption.
    + intros ->. discriminate Hget.
Qed.

(** On [Sample.disk_two], with everything under [C:\music] checked, the
    loop renames a file in [C:\music] and one in [C:\music\Live]; the set
    gives [C:\music\Live] first, and the refresh of [C:\music] then
    replaces its two checked children by the two unchecked items of the
    listing. *)
Lemma refreshed_children_are_unchecked_witness :
  let fs := Sample.disk_two in
  let forest := Sample.tree_two in
  let st := rename_loop (initial fs forest) (to_rename fs forest) in
  let live := Sample.in_music "Live" in
  let shown := fold_left (refresh_folder (disk st)) [live] (tree st) in
  let entries :=
    map (os.entry_of Sample.music)
        [(("Live"%string : str),
          FS.Dir [(("Dusk.mp3"%string : str),
                   FS.File (FS.Title [("Dusk"%string : str)]))]);
         (("Dawn.mp3"%string : str),
          FS.File (FS.Title [("Dawn"%string : str)]))] in
  let listed :=
    filter (fun e => folder_or_audio e || neither e) (sorted entries) in
  let left_by_rename_files :=
    snd (fst (rename_files reverse_order fs forest)) in
  (iterate reverse_order (folders_to_refresh st)
   = [live] ++ Sample.music :: []
   /\ find_item_by_path shown Sample.music = Some [0; 0]
   /\ os.scandir (disk st) Sample.music = Some entries)
  /\ option_map (fun it => map checkState (children it))
                (get_item [0; 0] shown)
     = Some [Checked; Checked]
  /\ map text (map entry_item listed)
     = [("Live"%string : str); ("Dawn.mp3"%string : str)]
  /\ exists old,
       get_item [0; 0] shown = Some old
       /\ get_item [0; 0] (refresh_folder (disk st) shown Sample.music)
          = Some (Item (text old) (data old) (check old)
                       (map entry_item listed))
       /\ Forall (fun child => checkState child = Unchecked)
                 (map entry_item listed)
       /\ left_by_rename_files
          = fold_left (refresh_folder (disk st)) []
                      (refresh_folder (disk st) shown Sample.music)
       /\ forall q x,
            q <> [] ->
            get_item ([0; 0] ++ q) left_by_rename_files = Some x ->
            checkState x = Unchecked.
Proof.
  intros fs forest st live shown entries listed final.
  split; [repeat split; vm_compute; reflexivity|].
  split; [vm_compute; reflexivity|].
  split; [vm_compute; reflexivity|].
  apply (refreshed_children_are_unchecked reverse_order fs forest
           [live] Sample.music [] [0; 0] entries);
    vm_compute; reflexivity.
Defined.

(** ** Check states *)

Lemma checkState_setCheckState s it : checkState (setCheckState s it) = s.
Proof.
  destruct it as [t d [old|] ch]; simpl; [|reflexivity].
  destruct (CheckState_eqb old s) eqn:E; [|reflexivity].
  destruct old, s; try discriminate E; reflexivity.
Qed.

Lemma setCheckState_changed s t d c ch :
  c <> Some s ->
  setCheckState s (Item t d c ch)
  = Item t d (Some s) (map (setCheckState s) ch).
Proof.
  intros Hc. destruct c as [old|]; simpl; [|reflexivity].
  destruct (CheckState_eqb old s) eqn:E; [|reflexivity].
  destruct old, s; try discriminate E; congruence.
Qed.

(** When the stored state is the one being set, nothing is signalled and
    nothing below the item changes. *)
Lemma setCheckState_same s it : check it = Some s -> setCheckState s it = it.
Proof.
  destruct it as [t d c ch]; simpl; intros ->.
  destruct s; reflexivity.
Qed.

(** C5, as the code has it.  After [setCheckState(N, Checked)] a descendant
    of [N] in the tree is checked whenever [N] and the items between [N] and
    it were not checked already: the state travels down through the items
    whose state changes, and stops at an item that was checked before. *)
Theorem setCheckState_reaches_descendants : forall r N after,
  sub_item r (setCheckState Checked N) = Some after ->
  (forall r1 r2 above,
     r = r1 ++ r2 -> r2 <> [] -> sub_item r1 N = Some above ->
     check above <> Some Checked) ->
  checkState after = Checked.
Proof.
  induction r as [|i r IH]; intros N after Hsub Habove.
  - simpl in Hsub. inversion Hsub; subst.
    apply checkState_setCheckState.
  - destruct N as [t d c ch].
    assert (Hc : c <> Some Checked).
    { apply (Habove [] (i :: r) (Item t d c ch)); simpl;
        [reflexivity | discriminate | reflexivity]. }
    rewrite setCheckState_changed in Hsub by assumption.
    simpl in Hsub. rewrite nth_error_map in Hsub.
    destruct (nth_error ch i) as [child|] eqn:Hi; [|discriminate].
    simpl in Hsub. apply (IH child after Hsub).
    intros r1 r2 above -> Hr2 Hs.
    apply (Habove (i :: r1) r2 above); simpl; [reflexivity|assumption|].
    rewrite Hi. assumption.
Qed.

Lemma setCheckState_reaches_descendants_witness :
  let N := Sample.nested Unchecked Unchecked PartiallyChecked in
  (exists after,
     sub_item [0; 0] (setCheckState Checked N) = Some after
     /\ checkState after = Checked)
  /\ (forall r1 r2 above,
        [0; 0] = r1 ++ r2 -> r2 <> [] -> sub_item r1 N = Some above ->
        check above <> Some Checked).
Proof.
  intros N.
  assert (Habove : forall r1 r2 above,
             [0; 0] = r1 ++ r2 -> r2 <> [] -> sub_item r1 N = Some above ->
             check above <> Some Checked).
  { intros [|i [|j [|k r1]]] r2 above Hr Hr2 Hs; simpl in Hr.
    - inversion Hs; subst. discriminate.
    - inversion Hr; subst. inversion Hs; subst. discriminate.
    - inversion Hr; subst. congruence.
    - inversion Hr. }
  split; [|exact Habove].
  eexists. split; [vm_compute; reflexivity|].
  apply (@setCheckState_reaches_descendants [0; 0] N);
    [vm_compute; reflexivity | exact Habove].
Defined.

(** C5 fails as stated: the user checks [B], unchecks the file in [B] and
    then checks [A], the parent of [B].  [B] holds the state already, so
    nothing is signalled for it, and the file in it stays unchecked. *)
Lemma checked_child_stops_propagation :
  checkState Sample.nested_before_last_click = Unchecked
  /\ option_map checkState (sub_item [0] Sample.nested_before_last_click)
     = Some Checked
  /\ option_map checkState (sub_item [0; 0] Sample.nested_before_last_click)
     = Some Unchecked
  /\ checkState Sample.nested_after_clicks = Checked
  /\ exists descendant,
       sub_item [0; 0] Sample.nested_after_clicks = Some descendant
       /\ checkState descendant = Unchecked.
Proof.
  repeat split; try reflexivity.
  eexists. split; vm_compute; reflexivity.
Qed.

(** ** The collection of the checked files *)

Lemma gather_checked_eq fs forest here it :
  gather_checked fs forest here it =
  match data it with
  | None => []
  | Some path =>
      let below := gather_children fs forest here 0 (children it) in
      if CheckState_eqb (checkState it) Checked then
        if os.isfile fs path && supported path
        then (Some here, path) :: below
        else if os.isdir fs path
             then walked forest (os.walk fs path)
             else below
      else below
  end.
Proof.
  destruct it as [t d c ch]. simpl. destruct d as [path|]; [|reflexivity].
  assert (E : forall l i,
    (fix each (i : nat) (l : list item) : list (option ref * str) :=
       match l with
       | [] => []
       | child :: l' =>
           gather_checked fs forest (here ++ [i]) child ++ each (S i) l'
       end) i l = gather_children fs forest here i l).
  { induction l as [|x l IH]; intros i; simpl; [reflexivity|].
    now rewrite IH. }
  rewrite E. reflexivity.
Qed.

Lemma gather_children_nth fs forest here : forall l i k child,
  nth_error l k = Some child ->
  incl (gather_checked fs forest (here ++ [i + k]) child)
       (gather_children fs forest here i l).
Proof.
  induction l as [|x l IH]; intros i [|k] child Hn; simpl in Hn;
    try discriminate.
  - inversion Hn; subst. rewrite Nat.add_0_r. simpl.
    apply incl_appl, incl_refl.
  - simpl. apply incl_appr. rewrite <- Nat.add_succ_comm. now apply IH.
Qed.



Lemma not_checked s : s <> Checked -> CheckState_eqb s Checked = false.
Proof. destruct s; simpl; congruence. Qed.

(** C2, as the code has it.  An item that has a path and is not checked
    adds nothing of its own, and [gather_checked] goes on into its children:
    what it collects is what its children give, so a checked file with a
    supported extension right below an unchecked folder is collected. *)
Theorem unchecked_folder_is_descended fs forest here it path :
  data it = Some path ->
  checkState it <> Checked ->
  gather_checked fs forest here it
  = gather_children fs forest here 0 (children it)
  /\ forall i child cpath,
       nth_error (children it) i = Some child ->
       data child = Some cpath ->
       checkState child = Checked ->
       os.isfile fs cpath = true ->
       supported cpath = true ->
       In (Some (here ++ [i]), cpath) (gather_checked fs forest here it).
Proof.
  intros Hd Hc.
  assert (E : gather_checked fs forest here it
              = gather_children fs forest here 0 (children it)).
  { rewrite gather_checked_eq, Hd. simpl.
    now rewrite (not_checked _ Hc). }
  split; [exact E|].
  intros i child cpath Hn Hcd Hcc Hf Hs. rewrite E.
  apply (@gather_children_nth fs forest here _ 0 _ _ Hn). simpl.
  rewrite gather_checked_eq, Hcd. simpl.
  rewrite Hcc, Hf, Hs. simpl. now left.
Qed.

Lemma unchecked_folder_is_descended_witness :
  let fs := Sample.disk_collision in
  let forest := Sample.tree_file_checked in
  let folder := Sample.music_item in
  let track1 := Sample.in_music "track1.mp3" in
  (data folder = Some Sample.music /\ checkState folder <> Checked)
  /\ gather_checked fs forest [0; 0] folder
     = gather_children fs forest [0; 0] 0 (children folder)
  /\ In (Some [0; 0; 3], track1) (gather_checked fs forest [0; 0] folder).
Proof.
  intros fs forest folder track1.
  assert (H1 : data folder = Some Sample.music) by (vm_compute; reflexivity).
  assert (H2 : checkState folder <> Checked) by (vm_compute; discriminate).
  destruct (@unchecked_folder_is_descended fs forest [0; 0] folder
              Sample.music H1 H2) as [E Hin].
  split; [split; assumption|]. split; [exact E|].
  apply (Hin 3 (Item ("track1.mp3"%string : str) (Some track1)
                     (Some Checked) []) track1);
    vm_compute; reflexivity.
Defined.

(** C2 fails as stated: [track1.mp3] is checked, the folder [music] it is
    in and the drive above are not, and the file is collected all the
    same. *)
Lemma checked_file_in_unchecked_folder_is_collected :
  let fs := Sample.disk_collision in
  let forest := Sample.tree_file_checked in
  option_map checkState (get_item [0] forest) = Some Unchecked
  /\ option_map checkState (get_item [0; 0] forest) = Some Unchecked
  /\ option_map checkState (get_item [0; 0; 3] forest) = Some Checked
  /\ to_rename fs forest
     = [(Some [0; 0; 3], Sample.in_music "track1.mp3")].
Proof.
  repeat split; vm_compute; reflexivity.
Qed.

(** *** A checked folder *)

Lemma walked_app forest a b :
  walked forest (a ++ b) = walked forest a ++ walked forest b.
Proof. unfold walked. apply flat_map_app. Qed.










(** ** Paths *)

Lemma str_eqb_eq a b : Py.str_eqb a b = true <-> a = b.
Proof.
  unfold Py.str_eqb. destruct (list_eq_dec ascii_dec a b); split;
    congruence.
Qed.

Lemma str_eqb_refl a : Py.str_eqb a a = true.
Proof. now apply str_eqb_eq. Qed.

Lemma str_eqb_neq a b : a <> b -> Py.str_eqb a b = false.
Proof.
  intros H. destruct (Py.str_eqb a b) eqn:E; [|reflexivity].
  apply str_eqb_eq in E. contradiction.
Qed.

Lemma takewhile_app_stop f a b :
  forallb f a = true -> Py.stops f b -> Py.takewhile f (a ++ b) = a.
Proof.
  induction a as [|x a IH]; simpl; intros Ha Hb.
  - destruct b as [|c b]; simpl; [reflexivity|]. simpl in Hb.
    now rewrite Hb.
  - apply andb_true_iff in Ha. destruct Ha as [Hx Ha].
    rewrite Hx. f_equal. auto.
Qed.

Lemma dropwhile_app_stop f a b :
  forallb f a = true -> Py.stops f b -> Py.dropwhile f (a ++ b) = b.
Proof.
  induction a as [|x a IH]; simpl; intros Ha Hb.
  - destruct b as [|c b]; simpl; [reflexivity|]. simpl in Hb.
    now rewrite Hb.
  - apply andb_true_iff in Ha. destruct Ha as [Hx Ha].
    rewrite Hx. auto.
Qed.

Lemma dropwhile_stops f s : Py.stops (fun c => f c) (Py.dropwhile f s).
Proof.
  induction s as [|c s IH]; simpl; [exact I|].
  destruct (f c) eqn:E; [assumption|]. simpl. assumption.
Qed.

Lemma takewhile_all f s : forallb f (Py.takewhile f s) = true.
Proof.
  induction s as [|c s IH]; simpl; [reflexivity|].
  destruct (f c) eqn:E; simpl; [now rewrite E|reflexivity].
Qed.

Lemma takewhile_dropwhile f s : Py.takewhile f s ++ Py.dropwhile f s = s.
Proof.
  induction s as [|c s IH]; simpl; [reflexivity|].
  destruct (f c); simpl; [now rewrite IH|reflexivity].
Qed.

Lemma forallb_rev (f : ascii -> bool) s : forallb f (rev s) = forallb f s.
Proof.
  induction s as [|c s IH]; simpl; [reflexivity|].
  rewrite forallb_app, IH. simpl. rewrite andb_true_r. apply andb_comm.
Qed.

Lemma last_is_sep_rev s :
  ntpath.last_is_sep s
  = match rev s with c :: _ => ntpath.is_sep c | [] => false end.
Proof.
  unfold ntpath.last_is_sep, ntpath.last_char. now destruct (rev s).
Qed.

Lemma with_sep_ends head :
  Py.stops ntpath.not_sep (rev (ntpath.with_sep head)).
Proof.
  unfold ntpath.with_sep. rewrite last_is_sep_rev.
  destruct (rev head) as [|c r] eqn:E.
  - assert (head = []) as ->.
    { rewrite <- (rev_involutive head), E. reflexivity. }
    simpl. exact I.
  - destruct (ntpath.is_sep c) eqn:Hc; simpl.
    + rewrite E. simpl. unfold ntpath.not_sep. now rewrite Hc.
    + rewrite str_eqb_neq.
      * simpl. rewrite rev_app_distr. simpl. reflexivity.
      * intros ->. discriminate E.
Qed.

Lemma rstrip_with_sep head :
  Py.rstrip (ntpath.with_sep head) ntpath.seps = Py.rstrip head ntpath.seps.
Proof.
  unfold ntpath.with_sep. rewrite last_is_sep_rev.
  destruct (rev head) as [|c r] eqn:E.
  { assert (head = []) as ->; [|reflexivity].
    rewrite <- (rev_involutive head), E. reflexivity. }
  destruct (ntpath.is_sep c) eqn:Hc; simpl; [reflexivity|].
  rewrite str_eqb_neq by (intros ->; discriminate E). simpl.
  unfold Py.rstrip. rewrite rev_app_distr. simpl. reflexivity.
Qed.

Lemma dropwhile_dropwhile f s :
  Py.dropwhile f (Py.dropwhile f s) = Py.dropwhile f s.
Proof.
  induction s as [|c s IH]; [reflexivity|].
  cbn [Py.dropwhile]. destruct (f c) eqn:E; [assumption|].
  cbn [Py.dropwhile]. now rewrite E.
Qed.

Lemma rstrip_rstrip s :
  Py.rstrip (Py.rstrip s ntpath.seps) ntpath.seps = Py.rstrip s ntpath.seps.
Proof.
  unfold Py.rstrip. now rewrite rev_involutive, dropwhile_dropwhile.
Qed.

Lemma rstrip_all_seps s :
  Py.rstrip s ntpath.seps = [] -> forallb ntpath.is_sep s = true.
Proof.
  unfold Py.rstrip. intros H. rewrite <- forallb_rev.
  assert (H' : Py.dropwhile (fun c => Py.char_in c ntpath.seps) (rev s) = []).
  { rewrite <- (rev_involutive (Py.dropwhile _ _)), H. reflexivity. }
  clear H. induction (rev s) as [|c r IH]; [reflexivity|].
  cbn [Py.dropwhile forallb] in *. unfold ntpath.is_sep at 1.
  destruct (Py.char_in c ntpath.seps); [auto|discriminate H'].
Qed.

Lemma with_sep_all_seps s :
  forallb ntpath.is_sep s = true -> ntpath.with_sep s = s.
Proof.
  intros H. unfold ntpath.with_sep. rewrite last_is_sep_rev.
  destruct (rev s) as [|c r] eqn:E.
  { assert (s = []) as ->; [|reflexivity].
    rewrite <- (rev_involutive s), E. reflexivity. }
  assert (Hc : ntpath.is_sep c = true).
  { rewrite <- forallb_rev, E in H. simpl in H.
    now apply andb_true_iff in H. }
  now rewrite Hc.
Qed.

(** Splitting what was joined gives the head back. *)
Lemma strip_head_with_sep head :
  ntpath.strip_head (ntpath.with_sep (ntpath.strip_head head)) = ntpath.strip_head head.
Proof.
  unfold ntpath.strip_head at 2 3.
  destruct (Py.rstrip head ntpath.seps) as [|c s] eqn:E.
  - rewrite with_sep_all_seps by now apply rstrip_all_seps.
    unfold ntpath.strip_head. now rewrite E.
  - unfold ntpath.strip_head. rewrite rstrip_with_sep, <- E, rstrip_rstrip.
    rewrite E. reflexivity.
Qed.

Lemma lettered_inv p :
  on_lettered_drive p = true ->
  exists c rest, p = c :: ntpath.colon :: rest.
Proof.
  destruct p as [|c [|d rest]]; simpl; try discriminate.
  intros H. apply Ascii.eqb_eq in H. subst d. eauto.
Qed.

Lemma splitdrive_lettered c rest :
  ntpath.splitdrive (c :: ntpath.colon :: rest) = ([c; ntpath.colon], rest).
Proof.
  unfold ntpath.splitdrive. cbn [length Nat.leb].
  cbn [Py.replace_char map firstn skipn].
  change (Ascii.eqb ntpath.colon ntpath.altsep) with false. cbv iota.
  rewrite str_eqb_neq by (intros H; inversion H).
  rewrite str_eqb_refl. reflexivity.
Qed.

Lemma plain_not_sep name : plain name = true -> forallb ntpath.not_sep name = true.
Proof.
  unfold plain. intros H. rewrite forallb_forall in *.
  intros c Hc. specialize (H c Hc). apply andb_true_iff in H. tauto.
Qed.

Lemma plain_app a b : plain (a ++ b) = plain a && plain b.
Proof. unfold plain. apply forallb_app. Qed.

Lemma not_sep_not_altsep c :
  ntpath.not_sep c = true ->
  Ascii.eqb c ntpath.altsep = false /\ c <> ntpath.sep.
Proof.
  unfold ntpath.not_sep, ntpath.is_sep, Py.char_in. simpl.
  rewrite orb_false_r. intros H. apply negb_true_iff in H.
  apply orb_false_iff in H. destruct H as [H1 H2]. split; [assumption|].
  intros ->. discriminate H1.
Qed.

Lemma splitdrive_plain name :
  plain name = true -> ntpath.splitdrive name = ([], name).
Proof.
  intros H. unfold ntpath.splitdrive.
  destruct name as [|a [|b r]]; try reflexivity.
  cbn [length Nat.leb]. cbn [Py.replace_char map firstn skipn].
  unfold plain in H. cbn [forallb] in H.
  apply andb_true_iff in H. destruct H as [Ha H].
  apply andb_true_iff in H. destruct H as [Hb _].
  apply andb_true_iff in Ha. destruct Ha as [Ha _].
  apply andb_true_iff in Hb. destruct Hb as [Hb Hbc].
  destruct (not_sep_not_altsep a Ha) as [Ha1 Ha2].
  destruct (not_sep_not_altsep b Hb) as [Hb1 Hb2].
  rewrite Ha1, Hb1.
  rewrite str_eqb_neq by (intros E; inversion E; contradiction).
  rewrite str_eqb_neq; [reflexivity|].
  intros E. inversion E; subst b. discriminate Hbc.
Qed.

Lemma plain_first_not_sep name :
  plain name = true -> ntpath.first_is_sep name = false.
Proof.
  destruct name as [|c r]; [reflexivity|]. intros H.
  apply plain_not_sep in H. simpl in H. apply andb_true_iff in H.
  destruct H as [H _]. unfold ntpath.not_sep in H.
  now apply negb_true_iff in H.
Qed.

(** Joining a plain name to a folder on a lettered drive puts it after the
    folder, with one separator between them if there is none. *)
Lemma join_lettered c head name :
  plain name = true ->
  ntpath.join (c :: ntpath.colon :: head) name
  = c :: ntpath.colon :: ntpath.with_sep head ++ name.
Proof.
  intros H. unfold ntpath.join.
  rewrite splitdrive_lettered, (splitdrive_plain _ H),
    (plain_first_not_sep _ H).
  rewrite str_eqb_refl. cbn [negb andb].
  change (ntpath.last_char [c; ntpath.colon]) with (Some ntpath.colon).
  change (Ascii.eqb ntpath.colon ntpath.colon) with true.
  cbn [negb]. rewrite !andb_false_r. reflexivity.
Qed.

Lemma split_lettered c rest :
  ntpath.split (c :: ntpath.colon :: rest)
  = (c :: ntpath.colon
       :: ntpath.strip_head (rev (Py.dropwhile ntpath.not_sep (rev rest))),
     rev (Py.takewhile ntpath.not_sep (rev rest))).
Proof.
  unfold ntpath.split. rewrite splitdrive_lettered. reflexivity.
Qed.

(** The last component of a path that ends in a plain name is that name,
    and what is before it is its head. *)
Lemma split_lettered_app c head name :
  Py.stops ntpath.not_sep (rev head) ->
  forallb ntpath.not_sep name = true ->
  ntpath.split (c :: ntpath.colon :: head ++ name)
  = (c :: ntpath.colon :: ntpath.strip_head head, name).
Proof.
  intros Hh Hn. rewrite split_lettered, rev_app_distr.
  rewrite takewhile_app_stop, dropwhile_app_stop;
    try assumption; try (now rewrite forallb_rev).
  now rewrite !rev_involutive.
Qed.

(** On a lettered drive, a plain name joined to the folder of a path is a
    path in that folder. *)
Lemma split_join_dirname path name :
  on_lettered_drive path = true ->
  plain name = true ->
  ntpath.split (ntpath.join (ntpath.dirname path) name)
  = (ntpath.dirname path, name).
Proof.
  intros Hl Hp. destruct (lettered_inv _ Hl) as (c & rest & ->).
  unfold ntpath.dirname. rewrite split_lettered. cbn [fst].
  rewrite (join_lettered _ _ _ Hp).
  rewrite split_lettered_app.
  - now rewrite strip_head_with_sep.
  - apply with_sep_ends.
  - now apply plain_not_sep.
Qed.







Lemma splitdrive_parts p :
  fst (ntpath.splitdrive p) ++ snd (ntpath.splitdrive p) = p.
Proof.
  unfold ntpath.splitdrive.
  repeat match goal with
         | |- context [if ?b then _ else _] => destruct b
         | |- context [match ?o with Some _ => _ | None => _ end] =>
             destruct o
         end;
    simpl; auto using firstn_skipn, app_nil_r.
  apply (firstn_skipn 2).
Qed.

Lemma locate_lettered c rest :
  FS.locate (c :: ntpath.colon :: rest)
  = Some (Py.lower_char c,
          FS.normalize (map Py.lower (FS.components rest))).
Proof.
  unfold FS.locate. rewrite splitdrive_lettered. reflexivity.
Qed.

Lemma located_is_lettered p where_ :
  FS.locate p = Some where_ -> on_lettered_drive p = true.
Proof.
  unfold FS.locate. pose proof (splitdrive_parts p) as H.
  destruct (ntpath.splitdrive p) as [[|c [|d [|e drive]]] rest];
    try discriminate.
  destruct (Ascii.eqb d ntpath.colon) eqn:E; [|discriminate].
  intros _. simpl in H. subst p. exact E.
Qed.

Lemma resolved_is_lettered fs p n :
  FS.resolve fs p = Some n -> on_lettered_drive p = true.
Proof.
  unfold FS.resolve. destruct (FS.locate p) eqn:E; [|discriminate].
  intros _. eapply located_is_lettered; eassumption.
Qed.

(** ** Titles and extensions *)

Lemma splitext_parts p :
  fst (ntpath.splitext p) ++ snd (ntpath.splitext p) = p.
Proof.
  unfold ntpath.splitext.
  match goal with |- context [if ?b then _ else _] => destruct b end;
    simpl; [apply firstn_skipn | apply app_nil_r].
Qed.

(** Cutting as many characters off the end as the extension has leaves the
    part before the extension: the slices [file_name[:-4]] and
    [file_name[:-5]] of lines 163 to 169. *)
Lemma drop_last_extension p :
  Py.drop_last (length (extension p)) p = fst (ntpath.splitext p).
Proof.
  unfold extension, Py.lower. rewrite length_map.
  pose proof (splitext_parts p) as H.
  unfold Py.drop_last.
  rewrite <- H at 1 3. rewrite length_app, Nat.add_sub.
  rewrite firstn_app, Nat.sub_diag, firstn_all. simpl.
  apply app_nil_r.
Qed.

Lemma supported_ext_cases ext :
  In ext SUPPORTED_EXTS ->
  ext = (".mp3"%string : str) \/ ext = (".flac"%string : str)
  \/ ext = (".wav"%string : str).
Proof. simpl. intuition auto. Qed.

Lemma read_title_supported fs path file_name ext :
  In ext SUPPORTED_EXTS ->
  read_title fs path file_name ext
  = option_map
      (fun tags =>
         match tags with
         | Some values => Py.join_empty values
         | None => Py.drop_last (length ext) file_name
         end)
      (mutagen.read fs path).
Proof.
  intros H. unfold read_title, mutagen.FLAC_title, mutagen.WAVE_title,
    mutagen.EasyID3_title, Py.join_empty.
  destruct (supported_ext_cases _ H) as [->|[->| ->]];
    vm_compute Py.str_eqb; cbv iota;
    destruct (mutagen.read fs path) as [[values|]|]; simpl;
    try reflexivity; now rewrite app_nil_r.
Qed.

Lemma read_title_some_supported fs path file_name ext title :
  read_title fs path file_name ext = Some title -> In ext SUPPORTED_EXTS.
Proof.
  unfold read_title, SUPPORTED_EXTS. intros H.
  destruct (Py.str_eqb ext (".mp3"%string : str)) eqn:E1;
    [apply str_eqb_eq in E1; subst; simpl; auto|].
  destruct (Py.str_eqb ext (".flac"%string : str)) eqn:E2;
    [apply str_eqb_eq in E2; subst; simpl; auto|].
  destruct (Py.str_eqb ext (".wav"%string : str)) eqn:E3;
    [apply str_eqb_eq in E3; subst; simpl; auto|].
  discriminate H.
Qed.

Lemma supported_ext_plain ext : In ext SUPPORTED_EXTS -> plain ext = true.
Proof.
  intros H. destruct (supported_ext_cases _ H) as [->|[->| ->]];
    reflexivity.
Qed.

Lemma new_path_of_title fs path title :
  title_of fs path = Some title ->
  new_path_of fs path
  = Some (ntpath.join (ntpath.dirname path)
                      (title ++ extension (ntpath.basename path))).
Proof.
  intros H. unfold new_path_of, ntpath.dirname, ntpath.basename.
  destruct (ntpath.split path) as [folder file_name] eqn:E.
  rewrite H. reflexivity.
Qed.

Lemma title_of_supported fs path title :
  title_of fs path = Some title ->
  In (extension (ntpath.basename path)) SUPPORTED_EXTS.
Proof. unfold title_of. apply read_title_some_supported. Qed.

(** What a turn of the loop does, once the title is known. *)
Lemma rename_one_cases st item path title :
  title_of (disk st) path = Some title ->
  let new_path := ntpath.join (ntpath.dirname path)
                    (title ++ extension (ntpath.basename path)) in
  rename_one st (item, path) = st
  \/ (os.exists_ (disk st) new_path = false
      /\ os.rename (disk st) path new_path
         = Some (disk (rename_one st (item, path)))
      /\ renamed (rename_one st (item, path)) = S (renamed st)).
Proof.
  intros Ht new_path. unfold rename_one.
  rewrite (new_path_of_title _ _ _ Ht). fold new_path.
  destruct (os.exists_ (disk st) new_path); [now left|].
  destruct (os.rename (disk st) path new_path); [|now left].
  right. simpl. auto.
Qed.

Lemma renamed_grows st item path :
  renamed (rename_one st (item, path)) = S (renamed st) ->
  rename_one st (item, path) <> st.
Proof. intros H E. rewrite E in H. lia. Qed.

(** The paths of the tree are on lettered drives: the drive items are, and
    so is what [os.scandir] and [os.walk] join to a path that is. *)
Lemma drive_items_are_lettered bitmask it :
  In it (load_all_drives bitmask) ->
  exists drive, data it = Some drive /\ on_lettered_drive drive = true.
Proof.
  unfold load_all_drives, list_drives. intros H.
  apply in_map_iff in H. destruct H as (drive & <- & H).
  exists drive. split; [reflexivity|].
  apply in_flat_map in H. destruct H as (i & _ & H).
  destruct (Nat.testbit bitmask i); [|contradiction].
  destruct H as [<-|[]]. reflexivity.
Qed.

Lemma join_stays_lettered top name :
  on_lettered_drive top = true -> plain name = true ->
  on_lettered_drive (ntpath.join top name) = true.
Proof.
  intros Hl Hp. destruct (lettered_inv _ Hl) as (c & rest & ->).
  rewrite (join_lettered _ _ _ Hp). reflexivity.
Qed.

Lemma load_all_drives_C : load_all_drives 4 = [Sample.drive_item].
Proof. reflexivity. Qed.

(** A title is read from files only, and the disk has files on lettered
    drives only. *)
Lemma title_of_lettered fs path title :
  title_of fs path = Some title -> on_lettered_drive path = true.
Proof.
  intros Ht. pose proof (title_of_supported _ _ _ Ht) as Hext.
  unfold title_of in Ht. rewrite (read_title_supported _ _ _ _ Hext) in Ht.
  unfold mutagen.read in Ht.
  destruct (FS.resolve fs path) as [n|] eqn:Hr; [|discriminate].
  eapply resolved_is_lettered; eassumption.
Qed.

(** ** The folder of a renamed file *)

(** Where the title read for a file has neither a separator nor a colon in
    it and the file is renamed, it is renamed to a path in the folder it
    was in, under the title followed by the extension in lower case. *)
Lemma plain_title_keeps_the_folder st item path title :
  title_of (disk st) path = Some title ->
  plain title = true ->
  renamed (rename_one st (item, path)) = S (renamed st) ->
  exists new_path,
    new_path_of (disk st) path = Some new_path
    /\ os.rename (disk st) path new_path
       = Some (disk (rename_one st (item, path)))
    /\ ntpath.dirname new_path = ntpath.dirname path
    /\ ntpath.basename new_path
       = title ++ extension (ntpath.basename path).
Proof.
  intros Ht Hp Hr.
  pose proof (title_of_lettered _ _ _ Ht) as Hl.
  exists (ntpath.join (ntpath.dirname path)
                      (title ++ extension (ntpath.basename path))).
  split; [now apply new_path_of_title|].
  destruct (rename_one_cases st item path title Ht) as [E|(_ & Hren & _)].
  - exfalso. now apply (renamed_grows st item path).
  - split; [exact Hren|].
    assert (Hs := split_join_dirname path
                    (title ++ extension (ntpath.basename path)) Hl).
    rewrite plain_app, Hp in Hs.
    rewrite (supported_ext_plain _ (title_of_supported _ _ _ Ht)) in Hs.
    specialize (Hs eq_refl).
    split.
    + unfold ntpath.dirname at 1. now rewrite Hs.
    + unfold ntpath.basename at 1. now rewrite Hs.
Qed.

(** C9: the code at the input on which it leaves the folder.  The title
    [Live/Sunrise] is read for [C:\music\track1.mp3] and the folder
    [C:\music\Live] is there.  Line 172 joins the title as it is, so the
    new path is [C:\music\Live/Sunrise.mp3]; nothing is at that path, and
    line 177 renames the file into [C:\music\Live].  What follows is
    written for a file that stays where it was: the one folder recorded for
    the refresh is [C:\music], and the item of the file keeps its place
    among the children of [C:\music], with [Sunrise.mp3] as its label and
    the path in [C:\music\Live] as its stored path. *)
Theorem title_with_separator_leaves_the_folder :
  let st := Sample.state_slash_shown in
  let path := Sample.in_music "track1.mp3" in
  let new_path :=
    Sample.music ++ Sample.bs ++ ("Live/Sunrise.mp3"%string : str) in
  let st' := rename_one st (Some [0; 0; 1], path) in
  option_map data (get_item [0; 0; 1] (tree st)) = Some (Some path)
  /\ title_of (disk st) path = Some ("Live/Sunrise"%string : str)
  /\ new_path_of (disk st) path = Some new_path
  /\ os.exists_ (disk st) new_path = false
  /\ os.rename (disk st) path new_path = Some (disk st')
  /\ renamed st' = 1
  /\ ntpath.dirname path = Sample.music
  /\ ntpath.dirname new_path = Sample.in_music "Live"
  /\ ntpath.dirname new_path <> ntpath.dirname path
  /\ disk st'
     = [("C"%char,
         FS.Dir [(("music"%string : str),
                  FS.Dir [(("TRACK2.MP3"%string : str), FS.File FS.NoTitle);
                          (("Live"%string : str),
                           FS.Dir [(("Sunrise.mp3"%string : str),
                                    FS.File (FS.Title
                                      [("Live/Sunrise"%string : str)]))])])])]
  /\ os.isfile (disk st') (Sample.in_music "Live\Sunrise.mp3") = true
  /\ os.isfile (disk st') (Sample.in_music "Sunrise.mp3") = false
  /\ folders_to_refresh st' = [Sample.music]
  /\ option_map data (get_item [0; 0] (tree st')) = Some (Some Sample.music)
  /\ option_map text (get_item [0; 0; 1] (tree st'))
     = Some ("Sunrise.mp3"%string : str)
  /\ option_map data (get_item [0; 0; 1] (tree st')) = Some (Some new_path).
Proof.
  cbv zeta.
  repeat match goal with |- _ /\ _ => split end;
    try (vm_compute; reflexivity).
  vm_compute. discriminate.
Qed.

(** ** A file that has its name already *)





Lemma new_path_of_none st item path :
  new_path_of (disk st) path = None -> rename_one st (item, path) = st.
Proof. intros H. unfold rename_one. now rewrite H. Qed.

Lemma title_of_none fs path :
  title_of fs path = None -> new_path_of fs path = None.
Proof.
  intros H. unfold new_path_of. destruct (ntpath.split path).
  now rewrite H.
Qed.



(** Why the disk has to be well formed: were a file without a title called
    [C:C:x.mp3], the path computed for it would be [C:\music\C:x.mp3], and
    a file without a title found there would be renamed to [x.mp3]. *)
Lemma name_with_colons_is_renamed_again :
  let st0 := Sample.state_odd ("C:C:x.mp3"%string : str) in
  let st := Sample.state_odd ("C:x.mp3"%string : str) in
  let path := Sample.in_music "C:C:x.mp3" in
  let new_path := Sample.in_music "C:x.mp3" in
  title_of (disk st0) path = Some ("C:C:x"%string : str)
  /\ no_separator ("C:C:x"%string : str) = true
  /\ new_path_of (disk st0) path = Some new_path
  /\ mutagen.read (disk st) new_path = mutagen.read (disk st0) path
  /\ FS.wfb (disk st) = false
  /\ new_path_of (disk st) new_path = Some (Sample.in_music "x.mp3")
  /\ renamed (rename_one st (None, new_path)) = 1.
Proof.
  repeat split; vm_compute; reflexivity.
Qed.

(** When one folder at most is to be refreshed, the order in which the set
    is gone through makes no difference. *)
Lemma iterate_short (o : set_order) l : length l <= 1 -> iterate o l = l.
Proof.
  intros H. pose proof (iterate_perm o l) as P.
  destruct l as [|x [|y l]].
  - now apply Permutation_nil.
  - now apply Permutation_length_1_inv.
  - simpl in H. lia.
Qed.

Lemma rename_files_one_folder o o' fs forest :
  length (folders_to_refresh
            (rename_loop (initial fs forest) (to_rename fs forest))) <= 1 ->
  rename_files o fs forest = rename_files o' fs forest.
Proof.
  intros H. unfold rename_files. fold (initial fs forest).
  now rewrite !iterate_short.
Qed.


(** Why the title has to be without a separator: with the title
    [Live/Sunrise] and a folder [Live] in the folder [Live], the first run
    takes the file into [C:\music\Live] and the second run takes it on into
    [C:\music\Live\Live]. *)
Lemma title_with_separator_is_renamed_by_both_runs :
  let run1 :=
    rename_files insertion_order Sample.disk_live_live Sample.tree_live_live in
  let run2 := rename_files insertion_order (fst (fst run1)) (snd (fst run1)) in
  snd run1 = 1
  /\ mutagen.read (fst (fst run1)) (Sample.in_music "Live\Sunrise.mp3")
     = Some (Some [("Live/Sunrise"%string : str)])
  /\ snd run2 = 1
  /\ mutagen.read (fst (fst run2)) (Sample.in_music "Live\Live\Sunrise.mp3")
     = Some (Some [("Live/Sunrise"%string : str)]).
Proof.
  repeat split; vm_compute; reflexivity.
Qed.

(** ** Paths that name the same file *)

Lemma components_from_plain t : forall cur,
  forallb ntpath.not_sep t = true ->
  FS.components_from cur t = FS.emit (cur ++ t).
Proof.
  induction t as [|c t IH]; intros cur H; simpl.
  - now rewrite app_nil_r.
  - simpl in H. apply andb_true_iff in H. destruct H as [Hc Ht].
    unfold ntpath.not_sep in Hc. apply negb_true_iff in Hc. rewrite Hc.
    rewrite IH by assumption. now rewrite <- app_assoc.
Qed.

Lemma emit_app_plain cur t :
  t <> [] -> FS.emit (cur ++ t) = [cur ++ t].
Proof.
  intros H. destruct (cur ++ t) eqn:E; [|reflexivity].
  apply app_eq_nil in E. tauto.
Qed.

(** A separator at the end adds no component. *)
Lemma components_from_trailing c : forall s cur,
  ntpath.is_sep c = true ->
  FS.components_from cur (s ++ [c]) = FS.components_from cur s.
Proof.
  induction s as [|x s IH]; intros cur Hc; simpl.
  - rewrite Hc. apply app_nil_r.
  - destruct (ntpath.is_sep x); now rewrite IH.
Qed.

Lemma components_rstrip s :
  FS.components (Py.rstrip s ntpath.seps) = FS.components s.
Proof.
  unfold Py.rstrip, FS.components. rewrite <- (rev_involutive s) at 2.
  induction (rev s) as [|c r IH]; [reflexivity|].
  cbn [Py.dropwhile]. destruct (Py.char_in c ntpath.seps) eqn:E.
  - rewrite IH. cbn [rev]. now rewrite components_from_trailing.
  - reflexivity.
Qed.

Lemma components_strip_head s :
  FS.components (ntpath.strip_head s) = FS.components s.
Proof.
  unfold ntpath.strip_head.
  destruct (Py.rstrip s ntpath.seps) eqn:E; [reflexivity|].
  rewrite <- E. apply components_rstrip.
Qed.

Lemma components_with_sep s :
  FS.components (ntpath.with_sep s) = FS.components s.
Proof.
  unfold ntpath.with_sep.
  destruct (negb (ntpath.last_is_sep s) && negb (Py.str_eqb s []));
    [|reflexivity].
  now apply components_from_trailing.
Qed.

(** The components of a head, empty or ending in a separator, followed by
    a name. *)
Lemma components_from_head_name t : forall h cur,
  Py.stops ntpath.not_sep (rev h) ->
  forallb ntpath.not_sep t = true ->
  FS.components_from cur (h ++ t)
  = match h with
    | [] => FS.emit (cur ++ t)
    | _ => FS.components_from cur h ++ FS.emit t
    end.
Proof.
  induction h as [|c h IH]; intros cur Hh Ht.
  - now apply components_from_plain.
  - assert (Hh' : h <> [] -> Py.stops ntpath.not_sep (rev h)).
    { intros Hne. simpl in Hh. destruct (rev h) as [|x r] eqn:E.
      - exfalso. apply Hne. rewrite <- (rev_involutive h), E. reflexivity.
      - exact Hh. }
    simpl. destruct (ntpath.is_sep c) eqn:Hc.
    + destruct h as [|d h].
      * simpl. rewrite (components_from_plain t [] Ht). simpl.
        now rewrite app_nil_r.
      * rewrite (IH [] (Hh' ltac:(discriminate)) Ht).
        now rewrite app_assoc.
    + destruct h as [|d h].
      * simpl in Hh. unfold ntpath.not_sep in Hh. rewrite Hc in Hh.
        discriminate Hh.
      * now rewrite (IH (cur ++ [c]) (Hh' ltac:(discriminate)) Ht).
Qed.

Lemma components_head_name h t :
  Py.stops ntpath.not_sep (rev h) ->
  forallb ntpath.not_sep t = true ->
  FS.components (h ++ t) = FS.components h ++ FS.emit t.
Proof.
  intros Hh Ht. unfold FS.components.
  rewrite components_from_head_name by assumption.
  destruct h; reflexivity.
Qed.

Lemma lower_char_lower_char c :
  Py.lower_char (Py.lower_char c) = Py.lower_char c.
Proof. destruct c as [[] [] [] [] [] [] [] []]; reflexivity. Qed.

Lemma lower_lower s : Py.lower (Py.lower s) = Py.lower s.
Proof.
  unfold Py.lower. rewrite map_map. apply map_ext.
  apply lower_char_lower_char.
Qed.

Lemma lower_app a b : Py.lower (a ++ b) = Py.lower a ++ Py.lower b.
Proof. apply map_app. Qed.

Lemma emit_lower s : map Py.lower (FS.emit s) = FS.emit (Py.lower s).
Proof. destruct s; reflexivity. Qed.

Lemma rest_head_tail rest :
  rest = rev (Py.dropwhile ntpath.not_sep (rev rest))
         ++ rev (Py.takewhile ntpath.not_sep (rev rest)).
Proof.
  rewrite <- rev_app_distr, takewhile_dropwhile. now rewrite rev_involutive.
Qed.

(** On a lettered drive, the folder of a path joined with a name that is
    the name of the path but for its case leads to the place the path leads
    to. *)
Lemma locate_join_dirname path name :
  on_lettered_drive path = true ->
  plain name = true ->
  Py.lower name = Py.lower (ntpath.basename path) ->
  FS.locate (ntpath.join (ntpath.dirname path) name) = FS.locate path.
Proof.
  intros Hl Hp Hlow. destruct (lettered_inv _ Hl) as (c & rest & ->).
  unfold ntpath.dirname, ntpath.basename in *. rewrite split_lettered in *.
  cbn [fst snd] in *.
  rewrite (join_lettered _ _ _ Hp), !locate_lettered.
  do 3 f_equal.
  rewrite (rest_head_tail rest) at 2.
  rewrite !components_head_name, !map_app, !emit_lower, Hlow.
  - now rewrite components_with_sep, components_strip_head.
  - rewrite rev_involutive. apply dropwhile_stops.
  - rewrite forallb_rev. apply takewhile_all.
  - apply with_sep_ends.
  - now apply plain_not_sep.
Qed.

Lemma resolve_join_dirname fs path name :
  on_lettered_drive path = true ->
  plain name = true ->
  Py.lower name = Py.lower (ntpath.basename path) ->
  FS.resolve fs (ntpath.join (ntpath.dirname path) name)
  = FS.resolve fs path.
Proof.
  intros Hl Hp Hlow. unfold FS.resolve.
  now rewrite locate_join_dirname.
Qed.

Lemma plain_app_l a b : plain (a ++ b) = true -> plain a = true.
Proof.
  rewrite plain_app. intros H. apply andb_true_iff in H. tauto.
Qed.

(** ** A file without a title *)

(** C7, as the code has it.  For a file with a supported extension (and no
    colon in its name) in which the reader finds no title, the title is the
    file name without its extension, and the path computed is the folder of
    the file joined with that title and the extension in lower case.  This
    path leads to the file itself, so nothing is renamed and the count
    stays.  It is the path of the file, letter for letter, when the
    extension is in lower case already and the path is its folder joined
    with its name. *)
Theorem untitled_file_is_left_alone st item path :
  mutagen.read (disk st) path = Some None ->
  In (extension (ntpath.basename path)) SUPPORTED_EXTS ->
  plain (ntpath.basename path) = true ->
  let stem := fst (ntpath.splitext (ntpath.basename path)) in
  let new_path := ntpath.join (ntpath.dirname path)
                    (stem ++ extension (ntpath.basename path)) in
  title_of (disk st) path = Some stem
  /\ new_path_of (disk st) path = Some new_path
  /\ FS.resolve (disk st) new_path = FS.resolve (disk st) path
  /\ rename_one st (item, path) = st
  /\ renamed (rename_one st (item, path)) = renamed st
  /\ (snd (ntpath.splitext (ntpath.basename path))
      = extension (ntpath.basename path) ->
      path = ntpath.join (ntpath.dirname path) (ntpath.basename path) ->
      new_path = path).
Proof.
  intros Hread Hext Hplain stem new_path.
  set (file_name := ntpath.basename path) in *.
  assert (Ht : title_of (disk st) path = Some stem).
  { unfold title_of. fold (ntpath.basename path). fold file_name.
    rewrite (read_title_supported _ _ _ _ Hext), Hread. simpl.
    now rewrite drop_last_extension. }
  assert (Hn : new_path_of (disk st) path = Some new_path)
    by now apply new_path_of_title.
  assert (Hfile : exists t, FS.resolve (disk st) path = Some (FS.File t)).
  { unfold mutagen.read in Hread.
    destruct (FS.resolve (disk st) path) as [[t|es|]|];
      [eauto|discriminate..]. }
  destruct Hfile as [t Hres].
  assert (Hsame : FS.resolve (disk st) new_path = FS.resolve (disk st) path).
  { apply resolve_join_dirname.
    - eapply resolved_is_lettered; eassumption.
    - rewrite plain_app, (supported_ext_plain _ Hext), andb_true_r.
      apply (plain_app_l stem (snd (ntpath.splitext file_name))).
      unfold stem. now rewrite splitext_parts.
    - fold file_name.
      replace (Py.lower file_name)
        with (Py.lower (stem ++ snd (ntpath.splitext file_name)))
        by (unfold stem; now rewrite splitext_parts).
      rewrite !lower_app. unfold extension. now rewrite lower_lower. }
  assert (E : rename_one st (item, path) = st).
  { unfold rename_one. rewrite Hn. unfold os.exists_.
    now rewrite Hsame, Hres. }
  repeat split; try assumption.
  - now rewrite E.
  - intros Hlow Hjoin. unfold new_path. rewrite <- Hlow.
    unfold stem. rewrite splitext_parts. now symmetry.
Qed.

Lemma untitled_file_is_left_alone_witness :
  let st := Sample.state_collision in
  let path := Sample.in_music "track2.mp3" in
  (mutagen.read (disk st) path = Some None
   /\ In (extension (ntpath.basename path)) SUPPORTED_EXTS
   /\ plain (ntpath.basename path) = true
   /\ snd (ntpath.splitext (ntpath.basename path))
      = extension (ntpath.basename path)
   /\ path = ntpath.join (ntpath.dirname path) (ntpath.basename path))
  /\ title_of (disk st) path = Some ("track2"%string : str)
  /\ new_path_of (disk st) path = Some path
  /\ rename_one st (None, path) = st
  /\ renamed (rename_one st (None, path)) = renamed st.
Proof.
  intros st path.
  assert (H1 : mutagen.read (disk st) path = Some None)
    by (vm_compute; reflexivity).
  assert (H2 : In (extension (ntpath.basename path)) SUPPORTED_EXTS)
    by (vm_compute; auto).
  assert (H3 : plain (ntpath.basename path) = true)
    by (vm_compute; reflexivity).
  assert (H4 : snd (ntpath.splitext (ntpath.basename path))
               = extension (ntpath.basename path))
    by (vm_compute; reflexivity).
  assert (H5 : path = ntpath.join (ntpath.dirname path)
                                  (ntpath.basename path))
    by (vm_compute; reflexivity).
  destruct (untitled_file_is_left_alone st None path H1 H2 H3)
    as (Ht & Hn & _ & E & Hr & Hsame).
  split; [auto 10|].
  split; [exact Ht|].
  split; [rewrite Hn; f_equal; apply Hsame; assumption|].
  split; assumption.
Defined.

(** C7 fails as stated: for [C:\music\TRACK2.MP3], a file without a title,
    the path computed is [C:\music\TRACK2.mp3], with the extension in lower
    case, which is not the path of the file.  On the disk, where case does
    not count, it leads to the file all the same, and nothing is renamed. *)
Lemma upper_case_extension_changes_the_path :
  let st := Sample.state_slash in
  let path := Sample.in_music "TRACK2.MP3" in
  mutagen.read (disk st) path = Some None
  /\ title_of (disk st) path = Some ("TRACK2"%string : str)
  /\ new_path_of (disk st) path = Some (Sample.in_music "TRACK2.mp3")
  /\ Sample.in_music "TRACK2.mp3" <> path
  /\ rename_one st (None, path) = st.
Proof.
  repeat split; try (vm_compute; reflexivity).
  vm_compute. discriminate.
Qed.

(** ** Trees that mirror the disk

    On a well-formed disk, the children [populate_tree] makes mirror the
    disk, and so does a tree in which an item has been expanded. *)

Lemma wf_node_entries es :
  FS.wf_node (FS.Dir es) ->
  NoDup (map (fun e => Py.lower (fst e)) es)
  /\ Forall (fun e => FS.entry_name_ok (fst e) = true
                      /\ FS.wf_node (snd e)) es.
Proof.
  simpl. intros [Hnd Hall]. split; [assumption|].
  clear Hnd. induction es as [|e es IH]; constructor.
  - tauto.
  - apply IH. tauto.
Qed.

Lemma lookup_member name es x :
  FS.lookup name es = Some x ->
  exists n, In (n, x) es /\ Py.lower n = name.
Proof.
  induction es as [|[n y] es IH]; simpl; [discriminate|].
  destruct (Py.str_eqb (Py.lower n) name) eqn:E.
  - intros H. inversion H; subst. apply str_eqb_eq in E. eauto.
  - intros H. destruct (IH H) as (n' & Hin & Hl). eauto.
Qed.

Lemma lookup_unique es : forall name x,
  NoDup (map (fun e => Py.lower (fst e)) es) ->
  In (name, x) es -> FS.lookup (Py.lower name) es = Some x.
Proof.
  induction es as [|[n y] es IH]; intros name x Hnd Hin; [contradiction|].
  simpl in Hnd. inversion Hnd as [|? ? Hnot Hnd']; subst.
  simpl. destruct Hin as [E|Hin].
  - inversion E; subst. now rewrite str_eqb_refl.
  - rewrite str_eqb_neq; [now apply IH|].
    intros E. apply Hnot. rewrite E.
    apply (in_map (fun e => Py.lower (fst e)) es (name, x) Hin).
Qed.

Lemma descend_wf : forall cs n x,
  FS.wf_node n -> FS.descend n cs = Some x -> FS.wf_node x.
Proof.
  induction cs as [|c cs IH]; intros n x Hwf H; simpl in H.
  - now inversion H; subst.
  - destruct n as [t|es|]; [discriminate| |discriminate].
    destruct (FS.lookup c es) as [y|] eqn:El; [|discriminate].
    destruct (lookup_member _ _ _ El) as (name & Hin & _).
    destruct (wf_node_entries _ Hwf) as [_ Hall].
    rewrite Forall_forall in Hall. specialize (Hall _ Hin).
    apply (IH y x); tauto.
Qed.

Lemma lookup_drive_member c fs root :
  FS.lookup_drive c fs = Some root -> exists d, In (d, root) fs.
Proof.
  induction fs as [|[d r] fs IH]; simpl; [discriminate|].
  destruct (Ascii.eqb (Py.lower_char d) c).
  - intros H. inversion H; subst. eauto.
  - intros H. destruct (IH H) as [d' Hin]. eauto.
Qed.

Lemma resolve_wf fs p x :
  FS.wf fs -> FS.resolve fs p = Some x -> FS.wf_node x.
Proof.
  unfold FS.resolve, FS.wf. intros Hwf H.
  destruct (FS.locate p) as [[c cs]|]; [|discriminate].
  destruct (FS.lookup_drive c fs) as [root|] eqn:Ed; [|discriminate].
  destruct (lookup_drive_member _ _ _ Ed) as [d Hin].
  rewrite Forall_forall in Hwf. specialize (Hwf _ Hin).
  eapply descend_wf; eassumption.
Qed.

Lemma descend_app : forall cs n c,
  FS.descend n (cs ++ [c])
  = match FS.descend n cs with
    | Some (FS.Dir es) => FS.lookup c es
    | _ => None
    end.
Proof.
  induction cs as [|d cs IH]; intros n c; simpl.
  - destruct n as [t|es|]; [reflexivity| |reflexivity]. now destruct (FS.lookup c es).
  - destruct n as [t|es|]; [reflexivity| |reflexivity].
    destruct (FS.lookup d es); [apply IH|reflexivity].
Qed.

Lemma normalize_onto_app c : forall cs stack,
  Py.str_eqb c ("."%string : str) = false ->
  Py.str_eqb c (".."%string : str) = false ->
  FS.normalize_onto stack (cs ++ [c]) = FS.normalize_onto stack cs ++ [c].
Proof.
  induction cs as [|d cs IH]; intros stack H1 H2;
    cbn [FS.normalize_onto app].
  - now rewrite H1, H2.
  - destruct (Py.str_eqb d ("."%string : str)); [now apply IH|].
    destruct (Py.str_eqb d (".."%string : str)); now apply IH.
Qed.

Lemma entry_name_ok_plain name :
  FS.entry_name_ok name = true -> plain name = true /\ name <> [].
Proof.
  unfold FS.entry_name_ok, plain. intros H.
  repeat (apply andb_true_iff in H; destruct H as [H ?]).
  split; [assumption|]. intros ->. discriminate H.
Qed.

Lemma lower_char_dot c :
  Py.lower_char c = "."%char -> c = "."%char.
Proof.
  destruct c as [[] [] [] [] [] [] [] []]; vm_compute;
    intros H; try discriminate H; reflexivity.
Qed.

Lemma lower_not_dots name :
  FS.entry_name_ok name = true ->
  Py.str_eqb (Py.lower name) ("."%string : str) = false
  /\ Py.str_eqb (Py.lower name) (".."%string : str) = false.
Proof.
  unfold FS.entry_name_ok. intros H.
  repeat (apply andb_true_iff in H; destruct H as [H ?]).
  split; apply str_eqb_neq; intros E.
  - destruct name as [|a [|b r]]; try discriminate E.
    cbn [Py.lower map] in E. injection E as Ea.
    apply lower_char_dot in Ea. subst a. discriminate.
  - destruct name as [|a [|b [|c r]]]; try discriminate E.
    cbn [Py.lower map] in E. injection E as Ea Eb.
    apply lower_char_dot in Ea, Eb. subst a b. discriminate.
Qed.

(** On a lettered drive, the path [os.scandir] gives an entry leads to what
    the name of the entry leads to in the directory. *)
Lemma resolve_join_entry fs p name :
  on_lettered_drive p = true ->
  FS.entry_name_ok name = true ->
  FS.resolve fs (ntpath.join p name)
  = match FS.resolve fs p with
    | Some (FS.Dir es) => FS.lookup (Py.lower name) es
    | _ => None
    end.
Proof.
  intros Hl Hok. destruct (lettered_inv _ Hl) as (c & rest & ->).
  destruct (entry_name_ok_plain _ Hok) as [Hp Hne].
  destruct (lower_not_dots _ Hok) as [H1 H2].
  unfold FS.resolve.
  rewrite (join_lettered _ _ _ Hp), !locate_lettered.
  rewrite components_head_name, components_with_sep;
    [|apply with_sep_ends|now apply plain_not_sep].
  replace (FS.emit name) with [name] by (now destruct name).
  rewrite map_app. simpl. unfold FS.normalize.
  rewrite normalize_onto_app by assumption.
  destruct (FS.lookup_drive (Py.lower_char c) fs) as [root|];
    [|reflexivity].
  apply descend_app.
Qed.

Lemma mirrors_children fs it :
  mirrors fs it
  <-> Forall (fun child => child_mirrors fs it child /\ mirrors fs child)
             (children it).
Proof.
  destruct it as [t d c ch]. simpl.
  generalize (Item t d c ch) as parent. intros parent.
  induction ch as [|x ch IH]; simpl.
  - split; [constructor|trivial].
  - rewrite IH. split.
    + intros (H1 & H2 & H3). now constructor.
    + intros H. inversion H; subst. tauto.
Qed.

Lemma child_mirrors_data fs a b x y :
  data a = data b -> data x = data y ->
  child_mirrors fs a x -> child_mirrors fs b y.
Proof.
  unfold child_mirrors. intros Hab Hxy H cp ces Hd Hr.
  rewrite <- Hxy in Hd. rewrite <- Hab. now apply H.
Qed.

Lemma mirrors_entry_item fs e : mirrors fs (entry_item e).
Proof.
  unfold entry_item. destruct (os.is_dir e); simpl; [|exact I].
  repeat split. intros cp ces Hd. discriminate Hd.
Qed.

Lemma entry_item_data e : data (entry_item e) = Some (os.path e).
Proof. unfold entry_item. now destruct (os.is_dir e). Qed.

Lemma populated_child_mirrors fs p parent es name node :
  FS.wf fs -> data parent = Some p ->
  FS.resolve fs p = Some (FS.Dir es) -> In (name, node) es ->
  child_mirrors fs parent (entry_item (os.entry_of p (name, node))).
Proof.
  intros Hwf Hd Hr Hin cp ces Hcd Hcr.
  rewrite entry_item_data in Hcd. simpl in Hcd. inversion Hcd; subst cp.
  destruct (wf_node_entries _ (resolve_wf _ _ _ Hwf Hr)) as [Hnd Hall].
  rewrite Forall_forall in Hall. destruct (Hall _ Hin) as [Hok _].
  simpl in Hok.
  rewrite resolve_join_entry, Hr in Hcr;
    [|eapply resolved_is_lettered; eassumption|assumption].
  rewrite (lookup_unique es name node Hnd Hin) in Hcr.
  inversion Hcr; subst node.
  exists p, es, name. auto.
Qed.

(** The children [populate_tree] gives an item without children mirror a
    well-formed disk. *)
Lemma mirrors_populate_tree fs p it :
  FS.wf fs -> data it = Some p ->
  mirrors fs (populate_tree fs p (takeChildren it)).
Proof.
  intros Hwf Hd.
  destruct (os.scandir fs p) as [entries|] eqn:Hs.
  - rewrite (populate_tree_listed _ _ _ _ Hs). apply mirrors_children.
    simpl. apply Forall_forall. intros child Hin.
    apply in_map_iff in Hin. destruct Hin as (e & <- & He).
    apply filter_In in He. destruct He as [He _].
    apply (Permutation_in _ (sorted_perm entries)) in He.
    unfold os.scandir in Hs.
    destruct (FS.resolve fs p) as [[t|es|]|] eqn:Hr; try discriminate.
    inversion Hs; subst entries.
    apply in_map_iff in He. destruct He as ([name node] & <- & Hin).
    split; [|apply mirrors_entry_item].
    eapply populated_child_mirrors; eauto.
  - rewrite (populate_tree_unlisted _ _ _ Hs). exact I.
Qed.

Lemma setCheckState_data s it : data (setCheckState s it) = data it.
Proof.
  destruct it as [t d [old|] ch]; simpl; [|reflexivity].
  now destruct (CheckState_eqb old s).
Qed.

Lemma mirrors_map_setCheckState fs s parent parent' ch :
  data parent = data parent' ->
  Forall (fun child => mirrors fs child -> mirrors fs (setCheckState s child))
         ch ->
  Forall (fun child => child_mirrors fs parent child /\ mirrors fs child) ch ->
  Forall (fun child => child_mirrors fs parent' child /\ mirrors fs child)
         (map (setCheckState s) ch).
Proof.
  intros Hd HIH H. induction H as [|x ch [Hx Hm] _ IH]; simpl;
    inversion HIH; subst; constructor; auto.
  split; auto.
  eapply child_mirrors_data; [exact Hd| |exact Hx].
  symmetry. apply setCheckState_data.
Qed.

(** Checking and unchecking leaves the paths where they are. *)
Lemma mirrors_setCheckState fs s : forall it,
  mirrors fs it -> mirrors fs (setCheckState s it).
Proof.
  induction it as [t d c ch IH] using item_ind'. intros Hm.
  assert (G : mirrors fs (Item t d (Some s) (map (setCheckState s) ch))).
  { apply mirrors_children. simpl.
    apply (mirrors_map_setCheckState fs s (Item t d c ch)); auto.
    now apply mirrors_children in Hm. }
  destruct c as [old|]; simpl; [|exact G].
  destruct (CheckState_eqb old s); [exact Hm|exact G].
Qed.

(** Expanding an item leaves a tree that mirrors a well-formed disk one
    that does. *)
Lemma mirrors_on_item_expanded fs it :
  FS.wf fs -> mirrors fs it -> mirrors fs (on_item_expanded fs it).
Proof.
  intros Hwf Hm. unfold on_item_expanded.
  destruct (data it) as [p|] eqn:Hd; [|exact Hm].
  match goal with |- context [if ?b then _ else _] => destruct b end;
    [exact Hm|].
  pose proof (mirrors_populate_tree fs p it Hwf Hd) as Hp.
  set (new := populate_tree fs p (takeChildren it)) in *.
  destruct (checkState new); [exact Hp| |];
    apply mirrors_children; simpl;
    apply (mirrors_map_setCheckState fs _ new); try reflexivity;
    try (now apply mirrors_children in Hp);
    apply Forall_forall; intros child _; apply mirrors_setCheckState.
Qed.

Lemma update_sub_data f :
  (forall x, data (f x) = data x) ->
  forall r it, data (update_sub r f it) = data it.
Proof. intros Hf [|i r] it; simpl; auto. Qed.

Lemma mirrors_update_nth fs g parent parent' : forall ch i,
  data parent = data parent' ->
  (forall x, data (g x) = data x) ->
  (forall x, nth_error ch i = Some x -> mirrors fs x -> mirrors fs (g x)) ->
  Forall (fun child => child_mirrors fs parent child /\ mirrors fs child) ch ->
  Forall (fun child => child_mirrors fs parent' child /\ mirrors fs child)
         (update_nth i g ch).
Proof.
  induction ch as [|x ch IH]; intros i Hd Hg Hm H;
    [destruct i; constructor|].
  inversion H as [|? ? [Hx Hmx] Hrest]; subst.
  destruct i as [|i]; simpl; constructor.
  - split; [|apply Hm; auto].
    eapply child_mirrors_data; [exact Hd|symmetry; apply Hg|exact Hx].
  - eapply Forall_impl; [|exact Hrest]. intros y [Hy Hmy].
    split; [|assumption].
    eapply child_mirrors_data; [exact Hd|reflexivity|exact Hy].
  - split; [|assumption].
    eapply child_mirrors_data; [exact Hd|reflexivity|exact Hx].
  - apply IH; auto.
Qed.

(** A change made in place that keeps the path of the item and its mirror
    keeps the mirror of the tree. *)
Lemma mirrors_update_sub fs f :
  (forall x, data (f x) = data x) ->
  (forall x, mirrors fs x -> mirrors fs (f x)) ->
  forall r it, mirrors fs it -> mirrors fs (update_sub r f it).
Proof.
  intros Hd Hf. induction r as [|i r IH]; intros it Hm; [simpl; auto|].
  cbn [update_sub]. apply mirrors_children. cbn [children].
  apply (mirrors_update_nth fs (update_sub r f) it); auto.
  - now apply update_sub_data.
  - now apply mirrors_children.
Qed.

Lemma on_item_expanded_data fs it :
  data (on_item_expanded fs it) = data it.
Proof.
  unfold on_item_expanded. destruct (data it) as [p|] eqn:Hd; [|assumption].
  match goal with |- context [if ?b then _ else _] => destruct b end;
    [assumption|].
  assert (E : data (populate_tree fs p (takeChildren it)) = Some p).
  { destruct (os.scandir fs p) as [entries|] eqn:Hs.
    - now rewrite (populate_tree_listed _ _ _ _ Hs).
    - now rewrite (populate_tree_unlisted _ _ _ Hs). }
  destruct (checkState _); assumption.
Qed.

(** The trees the program builds mirror a well-formed disk: the drive
    items do, and so does a tree that does once an item of it has been
    expanded, checked or unchecked. *)
Lemma mirrors_drive_items fs bitmask it :
  In it (load_all_drives bitmask) -> mirrors fs it.
Proof.
  unfold load_all_drives. intros H. apply in_map_iff in H.
  destruct H as (drive & <- & _). simpl.
  repeat split. intros cp ces Hd. discriminate Hd.
Qed.

Lemma mirrors_after_expanding fs r it :
  FS.wf fs -> mirrors fs it ->
  mirrors fs (update_sub r (on_item_expanded fs) it).
Proof.
  intros Hwf. apply mirrors_update_sub.
  - apply on_item_expanded_data.
  - intros x. now apply mirrors_on_item_expanded.
Qed.

Lemma mirrors_after_clicking fs s r it :
  mirrors fs it -> mirrors fs (update_sub r (setCheckState s) it).
Proof.
  apply mirrors_update_sub.
  - apply setCheckState_data.
  - apply mirrors_setCheckState.
Qed.

(** * Further properties of the code *)

(** ** [list_drives] and the tree at start-up *)

(** X1.  [list_drives] lists the root [X:\] of the drive with letter number
    [i], counted from [A], exactly when [i] is below 26 and bit [i] of the
    mask is set: bits from 26 on are not looked at, and no more than 26
    drives are listed. *)
Theorem list_drives_lists_the_set_bits bitmask :
  (forall drive,
      In drive (list_drives bitmask)
      <-> exists i, i < 26 /\ Nat.testbit bitmask i = true
                    /\ drive = ascii_of_nat (65 + i)
                                 :: ntpath.colon :: [ntpath.sep])
  /\ length (list_drives bitmask) <= 26.
Proof.
  unfold list_drives. split.
  - intros drive. rewrite in_flat_map. split.
    + intros (i & Hi & Hd). apply in_seq in Hi.
      destruct (Nat.testbit bitmask i) eqn:E; [|contradiction].
      destruct Hd as [<-|[]]. exists i.
      split; [lia|]. split; [assumption|reflexivity].
    + intros (i & Hi & Hb & ->). exists i. split.
      * apply in_seq. lia.
      * rewrite Hb. now left.
  - assert (G : forall l : list nat,
               length (flat_map
                 (fun i => if Nat.testbit bitmask i
                           then [ascii_of_nat (65 + i)
                                   :: ntpath.colon :: [ntpath.sep]]
                           else []) l) <= length l).
    { induction l as [|i l IH]; [simpl; lia|].
      cbn [flat_map]. rewrite length_app.
      destruct (Nat.testbit bitmask i); cbn [length]; lia. }
    specialize (G (seq 0 26)). now rewrite length_seq in G.
Qed.

(** ** Nothing checked *)

Lemma gather_nothing_checked fs forest : forall it here,
  every (fun x => negb (is_checked x)) it = true ->
  gather_checked fs forest here it = [].
Proof.
  induction it as [t d c ch IH] using item_ind'. intros here H.
  rewrite gather_checked_eq. cbn [data children].
  destruct d as [path|]; [|reflexivity]. cbv zeta.
  cbn [every children] in H. apply andb_true_iff in H.
  destruct H as [Hc Hch]. unfold is_checked in Hc.
  apply negb_true_iff in Hc. rewrite Hc.
  clear Hc. generalize 0 as i.
  induction ch as [|x ch IHch]; intros i; [reflexivity|].
  simpl in Hch. apply andb_true_iff in Hch. destruct Hch as [Hx Hch].
  inversion IH as [|? ? IHx IHrest]; subst.
  simpl. rewrite (IHx _ Hx). now apply IHch.
Qed.

Lemma gather_from_nothing_checked fs forest : forall tops i,
  forallb (every (fun x => negb (is_checked x))) tops = true ->
  gather_from fs forest i tops = [].
Proof.
  induction tops as [|top tops IH]; intros i H; [reflexivity|].
  simpl in H. apply andb_true_iff in H. destruct H as [Ht H].
  simpl. rewrite (gather_nothing_checked _ _ _ _ Ht). now apply IH.
Qed.

(** X2.  When no item of the tree is checked, [rename_files] collects
    nothing, and leaves the disk and the tree as they are; the count it
    shows is 0. *)
Theorem nothing_checked_nothing_renamed o fs forest :
  forallb (every (fun x => negb (is_checked x))) forest = true ->
  to_rename fs forest = []
  /\ rename_files o fs forest = (fs, forest, 0).
Proof.
  intros H.
  assert (E : to_rename fs forest = [])
    by now apply gather_from_nothing_checked.
  split; [exact E|]. unfold rename_files. rewrite E. simpl.
  now rewrite iterate_short by (simpl; lia).
Qed.

Lemma nothing_checked_nothing_renamed_witness :
  let forest :=
    update_item [0; 0] (on_item_expanded Sample.disk_collision)
      [on_item_expanded Sample.disk_collision Sample.drive_item] in
  forallb (every (fun x => negb (is_checked x))) forest = true
  /\ to_rename Sample.disk_collision forest = []
  /\ rename_files reverse_order Sample.disk_collision forest
     = (Sample.disk_collision, forest, 0).
Proof.
  intros forest. split; [vm_compute; reflexivity|].
  apply (nothing_checked_nothing_renamed reverse_order
           Sample.disk_collision forest).
  vm_compute; reflexivity.
Defined.

(** X3.  Right after start-up, whatever the drives and whatever is on
    them, the button renames nothing: the drive items [load_all_drives]
    makes are unchecked, so [rename_files] leaves disk and tree as they are
    and shows 0. *)
Theorem rename_files_at_start_up o fs bitmask :
  rename_files o fs (load_all_drives bitmask)
  = (fs, load_all_drives bitmask, 0).
Proof.
  unfold rename_files, to_rename.
  rewrite gather_from_nothing_checked;
    [simpl; now rewrite iterate_short by (simpl; lia)|].
  unfold load_all_drives. apply forallb_forall. intros it Hin.
  apply in_map_iff in Hin. destruct Hin as (drive & <- & _). reflexivity.
Qed.

(** ** [on_item_expanded] *)

Lemma on_item_expanded_eq fs it :
  on_item_expanded fs it
  = match data it with
    | None => it
    | Some path =>
        if Py.str_eqb path [] || negb (unloaded it) then it
        else spread (populate_tree fs path (takeChildren it))
    end.
Proof.
  unfold on_item_expanded, unloaded, spread.
  destruct (data it) as [path|]; [|reflexivity].
  destruct (children it) as [|first rest]; reflexivity.
Qed.

Lemma populate_tree_fields fs path it :
  text (populate_tree fs path it) = text it
  /\ data (populate_tree fs path it) = data it
  /\ check (populate_tree fs path it) = check it.
Proof.
  destruct (os.scandir fs path) as [entries|] eqn:Hs.
  - rewrite (populate_tree_listed _ _ _ _ Hs). auto.
  - rewrite (populate_tree_unlisted _ _ _ Hs). auto.
Qed.

Lemma spread_fields it :
  text (spread it) = text it /\ data (spread it) = data it
  /\ check (spread it) = check it.
Proof. unfold spread. destruct (checkState it); auto. Qed.

Lemma takeChildren_fields a b :
  text a = text b -> data a = data b -> check a = check b ->
  takeChildren a = takeChildren b.
Proof. unfold takeChildren. now intros -> -> ->. Qed.

Lemma expanded_fields fs it :
  text (on_item_expanded fs it) = text it
  /\ data (on_item_expanded fs it) = data it
  /\ check (on_item_expanded fs it) = check it.
Proof.
  rewrite on_item_expanded_eq. destruct (data it) as [path|] eqn:Hd; auto.
  destruct (Py.str_eqb path [] || negb (unloaded it)); auto.
  destruct (spread_fields (populate_tree fs path (takeChildren it)))
    as (-> & -> & ->).
  destruct (populate_tree_fields fs path (takeChildren it))
    as (-> & -> & ->).
  simpl. auto.
Qed.

(** An expansion after an expansion either does nothing or lists the
    folder as a first expansion would. *)
Lemma expanded_again fs fs' it :
  on_item_expanded fs' (on_item_expanded fs it) = on_item_expanded fs it
  \/ on_item_expanded fs' (on_item_expanded fs it) = on_item_expanded fs' it.
Proof.
  destruct (expanded_fields fs it) as (Ht & Hd & Hc).
  rewrite (on_item_expanded_eq fs' (on_item_expanded fs it)), Hd.
  destruct (data it) as [path|] eqn:Hdata; [|now left].
  destruct (Py.str_eqb path []) eqn:Hp; [now left|]. cbn [orb].
  destruct (unloaded (on_item_expanded fs it)) eqn:Hu; [|now left].
  cbn [negb]. right.
  rewrite (takeChildren_fields _ it Ht (eq_trans Hd (eq_sym Hdata)) Hc).
  rewrite (on_item_expanded_eq fs' it), Hdata, Hp. cbn [orb].
  destruct (unloaded it) eqn:Hui; [reflexivity|].
  rewrite on_item_expanded_eq, Hdata, Hp, Hui in Hu. cbn in Hu.
  congruence.
Qed.

(** X4.  On a disk that has not changed, expanding an item a second time
    gives what the first expansion gave: an item that has been loaded is
    left as it is, and one that came out without children is listed again,
    with the same result. *)
Theorem on_item_expanded_twice fs it :
  on_item_expanded fs (on_item_expanded fs it) = on_item_expanded fs it.
Proof. destruct (expanded_again fs fs it); assumption. Qed.

Lemma setCheckState_text s it : text (setCheckState s it) = text it.
Proof.
  destruct it as [t d [old|] ch]; simpl; [|reflexivity].
  now destruct (CheckState_eqb old s).
Qed.

Lemma spread_children it :
  children (spread it) = map (setCheckState (checkState it)) (children it)
  \/ (checkState it = Unchecked /\ children (spread it) = children it).
Proof. unfold spread. destruct (checkState it); auto. Qed.

(** X5.  When an item that has not been loaded is expanded and its folder
    can be listed, the item keeps its label, path and state; its children
    are the items of the folders, of the supported files and of the entries
    that are neither a file nor a folder of the listing, in the order of the
    sort, each under its name and the path of its entry - the placeholder is
    gone - and each of them has the check state of the item. *)
Theorem expanded_children_take_the_state fs it path entries :
  data it = Some path ->
  path <> [] ->
  unloaded it = true ->
  os.scandir fs path = Some entries ->
  let shown :=
    filter (fun e => folder_or_audio e || neither e) (sorted entries) in
  let expanded := on_item_expanded fs it in
  (text expanded = text it /\ data expanded = data it
   /\ check expanded = check it)
  /\ map text (children expanded) = map os.name shown
  /\ map data (children expanded) = map (fun e => Some (os.path e)) shown
  /\ Forall (fun child => checkState child = checkState it)
            (children expanded).
Proof.
  intros Hd Hp Hu Hs shown expanded.
  split; [apply expanded_fields|].
  unfold expanded. rewrite on_item_expanded_eq, Hd, Hu.
  rewrite str_eqb_neq by assumption. cbn [orb negb].
  set (new := populate_tree fs path (takeChildren it)).
  assert (Hn : children new = map entry_item shown).
  { unfold new. rewrite (populate_tree_listed _ _ _ _ Hs). simpl.
    unfold shown. now rewrite (filter_ext _ _ kept_cases). }
  assert (Hc : checkState new = checkState it).
  { unfold checkState, new.
    now destruct (populate_tree_fields fs path (takeChildren it))
      as (_ & _ & ->). }
  destruct (spread_children new) as [E|[Hun E]]; rewrite E, Hn.
  - rewrite !map_map. repeat split.
    + apply map_ext. intros e. rewrite setCheckState_text.
      unfold entry_item. now destruct (os.is_dir e).
    + apply map_ext. intros e. rewrite setCheckState_data.
      apply entry_item_data.
    + apply Forall_forall. intros child Hin. apply in_map_iff in Hin.
      destruct Hin as (e & <- & _). rewrite <- Hc.
      apply checkState_setCheckState.
  - rewrite !map_map. repeat split.
    + apply map_ext. intros e. unfold entry_item.
      now destruct (os.is_dir e).
    + apply map_ext. intros e. apply entry_item_data.
    + apply Forall_forall. intros child Hin. apply in_map_iff in Hin.
      destruct Hin as (e & <- & _). rewrite <- Hc, Hun.
      unfold checkState. now rewrite entry_item_unchecked.
Qed.

Lemma expanded_children_take_the_state_witness :
  let fs := Sample.disk_link in
  let it := Item ("music"%string : str) (Some Sample.music) (Some Checked)
                 [new_item loading] in
  let entries := map (os.entry_of Sample.music) Sample.link_entries in
  let shown :=
    filter (fun e => folder_or_audio e || neither e) (sorted entries) in
  let expanded := on_item_expanded fs it in
  (data it = Some Sample.music /\ Sample.music <> [] /\ unloaded it = true
   /\ os.scandir fs Sample.music = Some entries)
  /\ (text expanded = text it /\ data expanded = data it
      /\ check expanded = check it)
  /\ map text (children expanded) = map os.name shown
  /\ map data (children expanded) = map (fun e => Some (os.path e)) shown
  /\ Forall (fun child => checkState child = checkState it)
            (children expanded).
Proof.
  intros fs it entries shown expanded.
  split.
  - repeat split; try (vm_compute; reflexivity). discriminate.
  - apply (expanded_children_take_the_state fs it Sample.music entries);
      try (vm_compute; reflexivity). discriminate.
Defined.

(** X6.  When the folder of an item that has not been loaded cannot be
    listed, the expansion raises nothing: it leaves the item without
    children, its label, path and state as they were.  Nothing of the
    failure is kept: expanding the item again lists the folder as a first
    expansion would, on the disk as it then is. *)
Theorem unreadable_folder_is_tried_again fs it path :
  data it = Some path ->
  path <> [] ->
  unloaded it = true ->
  os.scandir fs path = None ->
  on_item_expanded fs it = takeChildren it
  /\ forall fs',
       on_item_expanded fs' (on_item_expanded fs it)
       = on_item_expanded fs' it.
Proof.
  intros Hd Hp Hu Hs.
  assert (E : on_item_expanded fs it = takeChildren it).
  { rewrite on_item_expanded_eq, Hd, Hu.
    rewrite str_eqb_neq by assumption. cbn [orb negb].
    rewrite (populate_tree_unlisted _ _ _ Hs).
    unfold spread. now destruct (checkState (takeChildren it)). }
  split; [exact E|]. intros fs'. rewrite E.
  rewrite !on_item_expanded_eq. cbn [data takeChildren]. rewrite Hd, Hu.
  rewrite str_eqb_neq by assumption. reflexivity.
Qed.

Lemma unreadable_folder_is_tried_again_witness :
  let fs := Sample.disk_collision in
  let gone := Sample.in_music "Gone" in
  let it := Item ("Gone"%string : str) (Some gone) (Some Checked)
                 [new_item loading] in
  (data it = Some gone /\ gone <> [] /\ unloaded it = true
   /\ os.scandir fs gone = None)
  /\ on_item_expanded fs it = takeChildren it
  /\ forall fs',
       on_item_expanded fs' (on_item_expanded fs it)
       = on_item_expanded fs' it.
Proof.
  intros fs gone it. split.
  - repeat split; try (vm_compute; reflexivity). discriminate.
  - apply (unreadable_folder_is_tried_again fs it gone);
      try (vm_compute; reflexivity). discriminate.
Defined.

(** ** [find_item_by_path] *)

Lemma recurse_none path : forall it here,
  recurse path here it = None ->
  forall r x, sub_item r it = Some x -> data x <> Some path.
Proof.
  induction it as [t d c ch IH] using item_ind'. intros here H.
  simpl in H.
  destruct (match d with Some p => Py.str_eqb p path | None => false end)
    eqn:Hd; [discriminate|].
  assert (G : forall l i,
    Forall (fun it => forall here, recurse path here it = None ->
              forall r x, sub_item r it = Some x -> data x <> Some path) l ->
    (fix each (i : nat) (l : list item) : option ref :=
       match l with
       | [] => None
       | child :: l' =>
           match recurse path (here ++ [i]) child with
           | Some found => Some found
           | None => each (S i) l'
           end
       end) i l = None ->
    forall k child r x, nth_error l k = Some child ->
       sub_item r child = Some x -> data x <> Some path).
  { induction l as [|y l IHl]; intros i HF Hl k child r x Hn Hs.
    - destruct k; discriminate.
    - inversion HF as [|? ? Hy HF']; subst.
      destruct (recurse path (here ++ [i]) y) eqn:Hr; [discriminate|].
      destruct k as [|k]; simpl in Hn.
      + inversion Hn; subst. eapply Hy; eassumption.
      + eapply (IHl (S i)); eassumption. }
  intros [|i r] x Hs; simpl in Hs.
  - inversion Hs; subst. simpl. destruct d as [p|]; [|discriminate].
    intros E. inversion E; subst. now rewrite str_eqb_refl in Hd.
  - destruct (nth_error ch i) as [child|] eqn:Hn; [|discriminate].
    eapply (G ch 0); eassumption.
Qed.

Lemma find_from_none path : forall tops i,
  find_from path i tops = None ->
  forall k top r x, nth_error tops k = Some top ->
    sub_item r top = Some x -> data x <> Some path.
Proof.
  induction tops as [|y tops IH]; intros i H k top r x Hn Hs.
  - destruct k; discriminate.
  - simpl in H. destruct (recurse path [i] y) eqn:Hr; [discriminate|].
    destruct k as [|k]; simpl in Hn.
    + inversion Hn; subst. eapply recurse_none; eassumption.
    + eapply IH; eassumption.
Qed.

(** X7.  [find_item_by_path] gives the position of an item of the tree
    that stores the path asked for, and it gives none only when no item of
    the tree, at any depth, stores that path. *)
Theorem find_item_by_path_finds forest path :
  (forall r, find_item_by_path forest path = Some r ->
             exists x, get_item r forest = Some x /\ data x = Some path)
  /\ (find_item_by_path forest path = None
      <-> forall r x, get_item r forest = Some x -> data x <> Some path).
Proof.
  split; [apply find_item_by_path_found|]. split.
  - intros H [|k r] x Hg; simpl in Hg; [discriminate|].
    destruct (nth_error forest k) as [top|] eqn:Hn; [|discriminate].
    eapply (find_from_none path forest 0); eassumption.
  - intros H. destruct (find_item_by_path forest path) as [r|] eqn:E;
      [|reflexivity].
    destruct (find_item_by_path_found _ _ _ E) as (x & Hg & Hd).
    exfalso. eapply H; eassumption.
Qed.

(** ** What [gather_checked] collects *)

Lemma get_item_child here forest it i :
  get_item here forest = Some it ->
  get_item (here ++ [i]) forest = nth_error (children it) i.
Proof.
  destruct here as [|k r]; simpl; [discriminate|].
  destruct (nth_error forest k) as [top|]; [|discriminate].
  intros H. rewrite sub_item_app, H. simpl.
  now destruct (nth_error (children it) i).
Qed.

Lemma gather_children_in fs forest here x : forall l i,
  In x (gather_children fs forest here i l) ->
  exists k child,
    nth_error l k = Some child
    /\ In x (gather_checked fs forest (here ++ [i + k]) child).
Proof.
  induction l as [|y l IH]; intros i H; [contradiction|].
  simpl in H. apply in_app_or in H. destruct H as [H|H].
  - exists 0, y. rewrite Nat.add_0_r. auto.
  - destruct (IH _ H) as (k & child & Hn & Hin).
    exists (S k), child. rewrite <- Nat.add_succ_comm. auto.
Qed.

Lemma gather_from_in fs forest x : forall tops i,
  In x (gather_from fs forest i tops) ->
  exists k top,
    nth_error tops k = Some top
    /\ In x (gather_checked fs forest [i + k] top).
Proof.
  induction tops as [|y tops IH]; intros i H; [contradiction|].
  simpl in H. apply in_app_or in H. destruct H as [H|H].
  - exists 0, y. rewrite Nat.add_0_r. auto.
  - destruct (IH _ H) as (k & top & Hn & Hin).
    exists (S k), top. rewrite <- Nat.add_succ_comm. auto.
Qed.

Lemma walked_in forest triples r p :
  In (r, p) (walked forest triples) ->
  exists root dirs files name,
    In (root, dirs, files) triples /\ In name files
    /\ supported name = true /\ p = ntpath.join root name
    /\ r = find_item_by_path forest p.
Proof.
  unfold walked. intros H. apply in_flat_map in H.
  destruct H as ([[root dirs] files] & Ht & H).
  apply in_map_iff in H. destruct H as (name & E & Hn).
  apply filter_In in Hn. destruct Hn as [Hn Hs].
  inversion E; subst. exists root, dirs, files, name. auto.
Qed.

(** What [gather_checked] gives is one of three things. *)
Lemma gather_checked_in fs forest here it x :
  In x (gather_checked fs forest here it) ->
  exists path,
    data it = Some path
    /\ ((x = (Some here, path) /\ os.isfile fs path = true
         /\ supported path = true)
        \/ (os.isdir fs path = true
            /\ In x (walked forest (os.walk fs path)))
        \/ In x (gather_children fs forest here 0 (children it))).
Proof.
  rewrite gather_checked_eq. destruct (data it) as [path|]; [|contradiction].
  cbv zeta. intros H. exists path. split; [reflexivity|].
  destruct (CheckState_eqb (checkState it) Checked); [|auto].
  destruct (os.isfile fs path && supported path) eqn:Hf.
  - apply andb_true_iff in Hf. destruct H as [<-|H]; [left|]; tauto.
  - destruct (os.isdir fs path) eqn:Hdir; auto.
Qed.

Lemma gathered_items_store_the_path fs forest r p : forall it here,
  get_item here forest = Some it ->
  In (Some r, p) (gather_checked fs forest here it) ->
  exists x, get_item r forest = Some x /\ data x = Some p.
Proof.
  induction it as [t d c ch IH] using item_ind'. intros here Hg Hin.
  destruct (gather_checked_in _ _ _ _ _ Hin)
    as (path & Hd & [(E & _)|[(_ & Hw)|Hc]]).
  - inversion E; subst. eauto.
  - destruct (walked_in _ _ _ _ Hw) as (root & dirs & files & name & _ & _
                                        & _ & _ & Hfind).
    symmetry in Hfind. now apply find_item_by_path_found.
  - destruct (gather_children_in _ _ _ _ _ _ Hc) as (k & child & Hn & Hk).
    rewrite Forall_forall in IH.
    apply (IH child (nth_error_In _ _ Hn) (here ++ [0 + k])); [|exact Hk].
    now rewrite (get_item_child _ _ _ _ Hg).
Qed.

(** X9.  Every entry of [to_rename] that comes with an item comes with
    the position of an item of the tree that stores the path of the entry:
    the label and path the rename loop rewrites are those of the file it
    renames. *)
Theorem collected_items_store_the_path fs forest r p :
  In (Some r, p) (to_rename fs forest) ->
  exists x, get_item r forest = Some x /\ data x = Some p.
Proof.
  unfold to_rename. intros H.
  destruct (gather_from_in _ _ _ _ _ H) as (k & top & Hn & Hin).
  apply (gathered_items_store_the_path fs forest r p top [0 + k]);
    [|exact Hin].
  simpl. now rewrite Hn.
Qed.

Lemma collected_items_store_the_path_witness :
  let fs := Sample.disk_collision in
  let forest := Sample.tree_file_checked in
  let track1 := Sample.in_music "track1.mp3" in
  In (Some [0; 0; 3], track1) (to_rename fs forest)
  /\ exists x, get_item [0; 0; 3] forest = Some x /\ data x = Some track1.
Proof.
  intros fs forest track1.
  assert (H : In (Some [0; 0; 3], track1) (to_rename fs forest))
    by (vm_compute; now left).
  split; [exact H|].
  exact (collected_items_store_the_path fs forest [0; 0; 3] track1 H).
Defined.

Lemma startswith_app s t : forall pre,
  Py.startswith s pre = true -> Py.startswith (s ++ t) pre = true.
Proof.
  induction s as [|c s IH]; intros [|a pre] H.
  - now destruct t.
  - discriminate H.
  - reflexivity.
  - simpl in *. apply andb_true_iff in H. destruct H as [-> H]. simpl. auto.
Qed.

Lemma endswith_any_app a b suffixes :
  Py.endswith_any b suffixes = true ->
  Py.endswith_any (a ++ b) suffixes = true.
Proof.
  unfold Py.endswith_any, Py.endswith. rewrite !existsb_exists.
  intros (suf & Hin & H). exists suf. split; [assumption|].
  rewrite rev_app_distr. now apply startswith_app.
Qed.

(** A supported name joined to a folder on a lettered drive gives a path
    with a supported extension. *)
Lemma supported_join top name :
  on_lettered_drive top = true -> plain name = true ->
  supported name = true -> supported (ntpath.join top name) = true.
Proof.
  intros Hl Hp Hs. destruct (lettered_inv _ Hl) as (c & rest & ->).
  rewrite (join_lettered _ _ _ Hp). unfold supported in *.
  change (c :: ntpath.colon :: ntpath.with_sep rest ++ name)
    with ((c :: ntpath.colon :: ntpath.with_sep rest) ++ name).
  rewrite lower_app. now apply endswith_any_app.
Qed.

Lemma resolve_entry fs top es name x :
  FS.wf_node (FS.Dir es) -> FS.resolve fs top = Some (FS.Dir es) ->
  In (name, x) es ->
  FS.resolve fs (ntpath.join top name) = Some x
  /\ plain name = true
  /\ on_lettered_drive (ntpath.join top name) = true.
Proof.
  intros Hwf Hr Hin.
  destruct (wf_node_entries _ Hwf) as [Hnd Hall].
  rewrite Forall_forall in Hall. destruct (Hall _ Hin) as [Hok _].
  simpl in Hok. pose proof (resolved_is_lettered _ _ _ Hr) as Hl.
  destruct (entry_name_ok_plain _ Hok) as [Hp _].
  split; [|split; [assumption|now apply join_stays_lettered]].
  rewrite resolve_join_entry, Hr by assumption.
  now apply lookup_unique.
Qed.

Lemma walked_flat_map_in forest
      (g : str * FS.node -> list (str * list str * list str)) x :
  forall es,
    In x (walked forest (flat_map g es)) ->
    exists e, In e es /\ In x (walked forest (g e)).
Proof.
  induction es as [|e es IH]; intros H; [contradiction|].
  simpl in H. rewrite walked_app in H. apply in_app_or in H.
  destruct H as [H|H]; [exists e; simpl; auto|].
  destruct (IH H) as (e' & Hin & Hx). exists e'. simpl. auto.
Qed.

(** What the walk of a well-formed folder gives are entries that are there,
    files or links whose target is gone, with a supported extension. *)
Lemma walked_are_supported_files fs forest r p : forall n top,
  FS.wf_node n -> FS.resolve fs top = Some n ->
  In (r, p) (walked forest (os.walk_node top n)) ->
  (os.isfile fs p = true \/ FS.resolve fs p = Some FS.Dangling)
  /\ supported p = true.
Proof.
  induction n as [t|es IH|] using FS.node_ind'; intros top Hwf Hr Hin;
    [contradiction| |contradiction].
  cbn [os.walk_node] in Hin.
  change ((top, os.dirs_of es, os.nondirs_of es)
            :: flat_map (fun e => os.walk_node (ntpath.join top (fst e))
                                    (snd e)) es)
    with ([(top, os.dirs_of es, os.nondirs_of es)]
            ++ flat_map (fun e => os.walk_node (ntpath.join top (fst e))
                                    (snd e)) es) in Hin.
  rewrite walked_app in Hin. apply in_app_or in Hin.
  destruct Hin as [Hin|Hin].
  - destruct (walked_in _ _ _ _ Hin) as (root & dirs & files & name & Ht
                                         & Hn & Hs & -> & _).
    destruct Ht as [E|[]]. inversion E; subst root dirs files.
    unfold os.nondirs_of in Hn. apply in_map_iff in Hn.
    destruct Hn as ([name' x] & Ename & Hx). simpl in Ename. subst name'.
    apply filter_In in Hx. destruct Hx as [Hx Hfile].
    destruct (resolve_entry fs top es name _ Hwf Hr Hx) as (Hres & Hp & _).
    split.
    + unfold os.isfile. rewrite Hres.
      destruct x as [t|sub|]; [now left|discriminate|now right].
    + apply supported_join; try assumption.
      eapply resolved_is_lettered; eassumption.
  - destruct (walked_flat_map_in _ _ _ _ Hin) as ([name sub] & He & Hx).
    simpl in Hx. rewrite Forall_forall in IH.
    destruct (resolve_entry fs top es name sub Hwf Hr He) as (Hres & _ & _).
    destruct (wf_node_entries _ Hwf) as [_ Hall].
    rewrite Forall_forall in Hall. destruct (Hall _ He) as [_ Hsub].
    apply (IH _ He (ntpath.join top name)); assumption.
Qed.

Lemma gathered_are_supported_files fs forest r p :
  FS.wf fs -> forall it here,
  In (r, p) (gather_checked fs forest here it) ->
  (os.isfile fs p = true \/ FS.resolve fs p = Some FS.Dangling)
  /\ supported p = true.
Proof.
  intros Hwf. induction it as [t d c ch IH] using item_ind'.
  intros here Hin.
  destruct (gather_checked_in _ _ _ _ _ Hin)
    as (path & Hd & [(E & Hf & Hs)|[(Hdir & Hw)|Hc]]).
  - inversion E; subst. auto.
  - unfold os.walk in Hw.
    destruct (FS.resolve fs path) as [n|] eqn:Hr; [|contradiction].
    eapply walked_are_supported_files; try eassumption.
    eapply resolve_wf; eassumption.
  - destruct (gather_children_in _ _ _ _ _ _ Hc) as (k & child & Hn & Hk).
    rewrite Forall_forall in IH.
    eapply (IH child (nth_error_In _ _ Hn)); eassumption.
Qed.

(** X8.  On a well-formed disk, every path in [to_rename] has a supported
    extension and is the path of a file that is on the disk or of a link
    whose target is gone, which [os.walk] lists among the files of its
    folder: neither a folder nor a name with another extension gets into
    the rename loop. *)
Theorem collected_are_supported_entries fs forest r p :
  FS.wf fs ->
  In (r, p) (to_rename fs forest) ->
  (os.isfile fs p = true \/ FS.resolve fs p = Some FS.Dangling)
  /\ supported p = true.
Proof.
  intros Hwf H. unfold to_rename in H.
  destruct (gather_from_in _ _ _ _ _ H) as (k & top & _ & Hin).
  eapply gathered_are_supported_files; eassumption.
Qed.

Lemma distinct_NoDup l : FS.distinct l = true -> NoDup l.
Proof.
  induction l as [|x l IH]; simpl; intros H; constructor.
  - apply andb_true_iff in H. destruct H as [H _].
    apply negb_true_iff in H. intros Hin.
    assert (E : existsb (Py.str_eqb x) l = true).
    { apply existsb_exists. exists x. split; [assumption|].
      apply str_eqb_refl. }
    congruence.
  - apply IH. apply andb_true_iff in H. tauto.
Qed.

Lemma wf_nodeb_sound : forall n, FS.wf_nodeb n = true -> FS.wf_node n.
Proof.
  induction n as [t|es IH|] using FS.node_ind'; intros H;
    [exact I| |exact I].
  cbn [FS.wf_nodeb] in H. apply andb_true_iff in H. destruct H as [Hd Hall].
  cbn [FS.wf_node]. split; [now apply distinct_NoDup|].
  clear Hd. induction es as [|e es IHes]; [exact I|].
  cbn [forallb] in Hall. apply andb_true_iff in Hall.
  destruct Hall as [He Hall]. apply andb_true_iff in He.
  destruct He as [Hok Hsub]. inversion IH as [|? ? IHe IHrest]; subst.
  split; [exact Hok|]. split; [exact (IHe Hsub)|exact (IHes IHrest Hall)].
Qed.

Lemma wfb_sound fs : FS.wfb fs = true -> FS.wf fs.
Proof.
  unfold FS.wfb, FS.wf. rewrite forallb_forall, Forall_forall.
  intros H d Hin. apply wf_nodeb_sound. now apply H.
Qed.

(** The link [ghost.mp3] of a checked folder is collected, although
    [os.path.isfile] is false of it. *)
Lemma collected_are_supported_entries_witness :
  let fs := Sample.disk_link in
  let forest := Sample.tree_link in
  let ghost := Sample.in_music "ghost.mp3" in
  (FS.wfb fs = true /\ In (None, ghost) (to_rename fs forest))
  /\ os.isfile fs ghost = false
  /\ (os.isfile fs ghost = true \/ FS.resolve fs ghost = Some FS.Dangling)
  /\ supported ghost = true.
Proof.
  intros fs forest ghost.
  assert (Hwf : FS.wfb fs = true) by (vm_compute; reflexivity).
  assert (Hin : In (None, ghost) (to_rename fs forest))
    by (vm_compute; tauto).
  split; [split; assumption|].
  split; [vm_compute; reflexivity|].
  exact (collected_are_supported_entries fs forest None ghost
           (wfb_sound fs Hwf) Hin).
Defined.

(** ** A file that has been renamed *)






(** ** The rename loop as a whole *)

(** A turn of the loop changes nothing, or renames one file and counts
    it. *)
Lemma rename_one_step st entry :
  rename_one st entry = st
  \/ exists new_path fs',
       new_path_of (disk st) (snd entry) = Some new_path
       /\ os.rename (disk st) (snd entry) new_path = Some fs'
       /\ rename_one st entry
          = {| disk := fs';
               tree :=
                 match fst entry with
                 | Some r =>
                     update_item r
                       (fun it =>
                          setData new_path
                                  (setText (ntpath.basename new_path) it))
                       (tree st)
                 | None => tree st
                 end;
               folders_to_refresh :=
                 set_add (ntpath.dirname (snd entry)) (folders_to_refresh st);
               renamed := S (renamed st) |}.
Proof.
  destruct entry as [item path]. unfold rename_one. cbn [fst snd].
  destruct (new_path_of (disk st) path) as [new_path|] eqn:Hn; [|now left].
  destruct (os.exists_ (disk st) new_path); [now left|].
  destruct (os.rename (disk st) path new_path) as [fs'|] eqn:Hr;
    [|now left].
  right. exists new_path, fs'. repeat split; assumption || reflexivity.
Qed.

(** X10.  The count [rename_files] shows never goes down during the loop
    and goes up by one at most for each entry of [to_rename]. *)
Theorem rename_loop_count entries : forall st,
  renamed st <= renamed (rename_loop st entries)
  /\ renamed (rename_loop st entries) <= renamed st + length entries.
Proof.
  induction entries as [|entry entries IH]; intros st; [simpl; lia|].
  rewrite rename_loop_cons. specialize (IH (rename_one st entry)).
  destruct (rename_one_step st entry) as [E|(new_path & fs' & _ & _ & E)];
    rewrite E in *; simpl in *; lia.
Qed.

Lemma rename_loop_grows entries : forall st,
  renamed st <= renamed (rename_loop st entries).
Proof.
  induction entries as [|entry entries IH]; intros st; [simpl; lia|].
  rewrite rename_loop_cons. specialize (IH (rename_one st entry)).
  destruct (rename_one_step st entry) as [E|(new_path & fs' & _ & _ & E)];
    rewrite E in *; simpl in *; lia.
Qed.

Lemma rename_loop_count_unchanged entries : forall st,
  renamed (rename_loop st entries) = renamed st ->
  rename_loop st entries = st.
Proof.
  induction entries as [|entry entries IH]; intros st H; [reflexivity|].
  rewrite rename_loop_cons in *.
  destruct (rename_one_step st entry) as [E|(new_path & fs' & _ & _ & E)].
  - rewrite E in *. now apply IH.
  - exfalso.
    pose proof (rename_loop_grows entries (rename_one st entry)) as Hle.
    rewrite E in Hle, H. simpl in Hle. rewrite H in Hle. lia.
Qed.

(** X11.  When the message of [rename_files] says that 0 files were
    renamed, nothing has changed: the disk is as it was, and so is the tree,
    of which no folder has been refreshed. *)
Theorem zero_renamed_nothing_changed o fs forest :
  snd (rename_files o fs forest) = 0 ->
  rename_files o fs forest = (fs, forest, 0).
Proof.
  unfold rename_files. cbn [snd]. intros H.
  fold (initial fs forest) in *.
  rewrite (rename_loop_count_unchanged (to_rename fs forest)
             (initial fs forest) H).
  simpl. now rewrite iterate_short by (simpl; lia).
Qed.

Lemma zero_renamed_nothing_changed_witness :
  let fs := Sample.disk_collision in
  let forest := Sample.tree_file_checked in
  (map snd (to_rename fs forest) = [Sample.in_music "track1.mp3"]
   /\ snd (rename_files insertion_order fs forest) = 0)
  /\ rename_files insertion_order fs forest = (fs, forest, 0).
Proof.
  intros fs forest.
  assert (H : snd (rename_files insertion_order fs forest) = 0)
    by (vm_compute; reflexivity).
  split; [split; [vm_compute; reflexivity|exact H]|].
  exact (zero_renamed_nothing_changed insertion_order fs forest H).
Defined.

Lemma on_item_changed_fields it :
  text (on_item_changed it) = text it
  /\ data (on_item_changed it) = data it
  /\ check (on_item_changed it) = check it.
Proof. unfold on_item_changed. simpl. auto. Qed.

Lemma setText_fields label it :
  text (setText label it) = label
  /\ data (setText label it) = data it
  /\ check (setText label it) = check it.
Proof.
  unfold setText. destruct (Py.str_eqb (text it) label) eqn:E.
  - apply str_eqb_eq in E. auto.
  - simpl. auto.
Qed.

Lemma setData_fields p it :
  text (setData p it) = text it
  /\ data (setData p it) = Some p
  /\ check (setData p it) = check it.
Proof.
  unfold setData. destruct (data it) as [old|] eqn:Hd; [|simpl; auto].
  destruct (Py.str_eqb old p) eqn:E; [|simpl; auto].
  apply str_eqb_eq in E. subst. auto.
Qed.

Lemma set_add_in folder folders : In folder (set_add folder folders).
Proof.
  unfold set_add. destruct (existsb (Py.str_eqb folder) folders) eqn:E.
  - apply existsb_exists in E. destruct E as (x & Hin & Hx).
    apply str_eqb_eq in Hx. now subst.
  - apply in_or_app. right. now left.
Qed.

(** X12.  When a turn of the loop renames a file that came with an item,
    the item at that position gets the new file name as its label and the
    new path as its path, and keeps its check state; the folder the file is
    in is among the folders to refresh.  The path it gets is the one the
    file was renamed to. *)
Theorem renamed_item_follows_the_file st r path it :
  renamed (rename_one st (Some r, path)) = S (renamed st) ->
  get_item r (tree st) = Some it ->
  exists new_path it',
    os.rename (disk st) path new_path
    = Some (disk (rename_one st (Some r, path)))
    /\ get_item r (tree (rename_one st (Some r, path))) = Some it'
    /\ text it' = ntpath.basename new_path
    /\ data it' = Some new_path
    /\ check it' = check it
    /\ In (ntpath.dirname path)
          (folders_to_refresh (rename_one st (Some r, path))).
Proof.
  intros Hr Hg.
  destruct (rename_one_step st (Some r, path))
    as [E|(new_path & fs' & _ & Hren & E)].
  - exfalso. now apply (renamed_grows st (Some r) path).
  - cbn [fst snd] in *. rewrite E. cbn [disk tree folders_to_refresh].
    exists new_path. eexists. split; [exact Hren|].
    split; [rewrite get_item_update_item, Hg; reflexivity|].
    destruct (setData_fields new_path
                (setText (ntpath.basename new_path) it)) as (Ht & Hd & Hc).
    destruct (setText_fields (ntpath.basename new_path) it)
      as (Ht' & _ & Hc').
    repeat split; try congruence. apply set_add_in.
Qed.

Lemma renamed_item_follows_the_file_witness :
  let st := Sample.state_chain in
  let path := Sample.in_music "second.mp3" in
  (renamed (rename_one st (Some [0; 0; 1], path)) = S (renamed st)
   /\ option_map text (get_item [0; 0; 1] (tree st))
      = Some ("second.mp3"%string : str))
  /\ exists new_path it',
       os.rename (disk st) path new_path
       = Some (disk (rename_one st (Some [0; 0; 1], path)))
       /\ get_item [0; 0; 1] (tree (rename_one st (Some [0; 0; 1], path)))
          = Some it'
       /\ text it' = ntpath.basename new_path
       /\ data it' = Some new_path
       /\ check it' = Some Checked
       /\ In (ntpath.dirname path)
             (folders_to_refresh (rename_one st (Some [0; 0; 1], path))).
Proof.
  intros st path. split; [split; vm_compute; reflexivity|].
  apply (renamed_item_follows_the_file st [0; 0; 1] path
           (Item ("second.mp3"%string : str) (Some path) (Some Checked) []));
    vm_compute; reflexivity.
Defined.

Lemma set_add_cases folder folders :
  (set_add folder folders = folders /\ In folder folders)
  \/ (set_add folder folders = folders ++ [folder] /\ ~ In folder folders).
Proof.
  unfold set_add. destruct (existsb (Py.str_eqb folder) folders) eqn:E.
  - left. split; [reflexivity|]. apply existsb_exists in E.
    destruct E as (x & Hin & Hx). apply str_eqb_eq in Hx. now subst.
  - right. split; [reflexivity|]. intros Hin.
    assert (existsb (Py.str_eqb folder) folders = true); [|congruence].
    apply existsb_exists. exists folder. split; [assumption|].
    apply str_eqb_refl.
Qed.

Lemma folders_invariant entries : forall st,
  NoDup (folders_to_refresh st) ->
  length (folders_to_refresh st) <= renamed st ->
  NoDup (folders_to_refresh (rename_loop st entries))
  /\ length (folders_to_refresh (rename_loop st entries))
     <= renamed (rename_loop st entries)
  /\ forall folder,
       In folder (folders_to_refresh (rename_loop st entries)) ->
       In folder (folders_to_refresh st)
       \/ exists entry, In entry entries
                        /\ folder = ntpath.dirname (snd entry).
Proof.
  induction entries as [|entry entries IH]; intros st Hnd Hlen;
    [simpl; auto|].
  rewrite rename_loop_cons.
  destruct (rename_one_step st entry) as [E|(new_path & fs' & _ & _ & E)].
  - rewrite E. destruct (IH st Hnd Hlen) as (H1 & H2 & H3).
    repeat split; try assumption. intros folder Hin.
    destruct (H3 folder Hin) as [H|(e & He & Hf)]; [now left|].
    right. exists e. simpl. auto.
  - rewrite E.
    match goal with |- context [rename_loop ?s entries] => set (st1 := s) end.
    assert (Hnd1 : NoDup (folders_to_refresh st1)).
    { unfold st1. cbn [folders_to_refresh].
      destruct (set_add_cases (ntpath.dirname (snd entry))
                              (folders_to_refresh st)) as [[-> _]|[-> Hn]];
        [assumption|].
      apply NoDup_app; [assumption|repeat constructor; intros []|].
      intros x Hx [<-|[]]. now apply Hn. }
    assert (Hlen1 : length (folders_to_refresh st1) <= renamed st1).
    { unfold st1. cbn [folders_to_refresh renamed].
      destruct (set_add_cases (ntpath.dirname (snd entry))
                              (folders_to_refresh st)) as [[-> _]|[-> _]];
        [lia|]. rewrite length_app. simpl. lia. }
    destruct (IH st1 Hnd1 Hlen1) as (H1 & H2 & H3).
    repeat split; try assumption. intros folder Hin.
    destruct (H3 folder Hin) as [H|(e & He & Hf)].
    + unfold st1 in H. cbn [folders_to_refresh] in H.
      destruct (set_add_cases (ntpath.dirname (snd entry))
                              (folders_to_refresh st)) as [[Es _]|[Es _]];
        rewrite Es in H; [now left|].
      apply in_app_or in H. destruct H as [H|[<-|[]]]; [now left|].
      right. exists entry. simpl. auto.
    + right. exists e. simpl. auto.
Qed.

(** X13.  The folders [rename_files] goes on to refresh are each the
    folder of an entry of [to_rename], none comes twice, and there are no
    more of them than files renamed: when nothing is renamed, nothing is
    refreshed. *)
Theorem folders_to_refresh_are_a_set fs forest entries :
  let st := rename_loop (initial fs forest) entries in
  NoDup (folders_to_refresh st)
  /\ length (folders_to_refresh st) <= renamed st
  /\ forall folder,
       In folder (folders_to_refresh st) ->
       exists entry, In entry entries
                     /\ folder = ntpath.dirname (snd entry).
Proof.
  intros st.
  destruct (folders_invariant entries (initial fs forest))
    as (H1 & H2 & H3); [constructor|simpl; lia|].
  repeat split; try assumption. intros folder Hin.
  destruct (H3 folder Hin) as [[]|H]. exact H.
Qed.

(** ** Check boxes and the rest of the tree *)

Lemma setCheckState_children s it :
  children (setCheckState s it) = children it
  \/ children (setCheckState s it) = map (setCheckState s) (children it).
Proof.
  destruct it as [t d [old|] ch]; simpl; [|now right].
  destruct (CheckState_eqb old s); auto.
Qed.

(** X14.  Checking or unchecking an item changes check states only: at
    every position below the item there is an item after the change exactly
    when there was one before, with the label and the path it had. *)
Theorem setCheckState_keeps_labels_and_paths s : forall r it,
  option_map text (sub_item r (setCheckState s it))
  = option_map text (sub_item r it)
  /\ option_map data (sub_item r (setCheckState s it))
     = option_map data (sub_item r it).
Proof.
  induction r as [|i r IH]; intros it.
  - simpl. now rewrite setCheckState_text, setCheckState_data.
  - cbn [sub_item].
    destruct (setCheckState_children s it) as [-> | ->]; [auto|].
    rewrite nth_error_map.
    destruct (nth_error (children it) i) as [child|]; simpl; auto.
Qed.

Lemma holds_false_changed s t d c ch :
  holds s (Item t d c ch) = false -> c <> Some s.
Proof.
  unfold holds. simpl. intros H ->. destruct s; discriminate.
Qed.

(** X15.  When no item of the tree below an item, the item included,
    stores the state that is set - as after the folder has been loaded and
    left alone, or after it has been toggled as a whole - setting the state
    of the item gives that state to every item below it. *)
Theorem toggling_a_whole_folder s : forall it,
  every (fun x => negb (holds s x)) it = true ->
  every (holds s) (setCheckState s it) = true.
Proof.
  induction it as [t d c ch IH] using item_ind'. intros H.
  cbn [every children] in H. apply andb_true_iff in H.
  destruct H as [Hc Hch]. apply negb_true_iff in Hc.
  rewrite setCheckState_changed by (eapply holds_false_changed; eassumption).
  cbn [every children]. apply andb_true_iff. split.
  - unfold holds. simpl. now destruct s.
  - rewrite forallb_forall in *. intros x Hx. apply in_map_iff in Hx.
    destruct Hx as (y & <- & Hy). rewrite Forall_forall in IH.
    apply (IH y Hy). now apply Hch.
Qed.

Lemma toggling_a_whole_folder_witness :
  let it := on_item_expanded Sample.disk_collision
              (Item ("music"%string : str) (Some Sample.music)
                    (Some Unchecked) [new_item loading]) in
  every (fun x => negb (holds Checked x)) it = true
  /\ every (holds Checked) (setCheckState Checked it) = true
  /\ length (children it) = 5.
Proof.
  intros it.
  assert (H : every (fun x => negb (holds Checked x)) it = true)
    by (vm_compute; reflexivity).
  split; [exact H|]. split; [|vm_compute; reflexivity].
  exact (toggling_a_whole_folder Checked it H).
Defined.

(** ** The refresh and the mirror of the disk *)

Lemma length_update_nth (f : item -> item) : forall l i,
  length (update_nth i f l) = length l.
Proof.
  induction l as [|x l IH]; intros [|i]; simpl; auto.
Qed.

Lemma length_update_item f r forest :
  length (update_item r f forest) = length forest.
Proof. destruct r; simpl; [reflexivity|apply length_update_nth]. Qed.

(** X16.  The refresh of a recorded folder replaces the children of the
    item found for it and nothing else of that item: the item keeps its
    label, its path and its check state - a checked folder is still checked
    after the refresh - and the tree keeps its top-level items. *)
Theorem refreshed_folder_keeps_its_state fs forest folder r :
  find_item_by_path forest folder = Some r ->
  exists old new,
    get_item r forest = Some old
    /\ get_item r (refresh_folder fs forest folder) = Some new
    /\ text new = text old
    /\ data new = Some folder
    /\ check new = check old
    /\ length (refresh_folder fs forest folder) = length forest.
Proof.
  intros Hfind.
  destruct (find_item_by_path_found _ _ _ Hfind) as (old & Hget & Hd).
  exists old, (refresh_item fs folder old).
  unfold refresh_folder. rewrite Hfind, get_item_update_item, Hget.
  unfold refresh_item.
  destruct (populate_tree_fields fs folder (takeChildren old))
    as (Ht & Hd' & Hc).
  repeat split; try assumption.
  - now rewrite Hd'.
  - apply length_update_item.
Qed.

Lemma refreshed_folder_keeps_its_state_witness :
  let forest := Sample.tree_music_checked in
  let fs := Sample.disk_collision in
  find_item_by_path forest Sample.music = Some [0; 0]
  /\ exists old new,
       get_item [0; 0] forest = Some old
       /\ get_item [0; 0] (refresh_folder fs forest Sample.music) = Some new
       /\ text new = text old
       /\ data new = Some Sample.music
       /\ check new = check old
       /\ length (refresh_folder fs forest Sample.music) = length forest.
Proof.
  intros forest fs.
  assert (H : find_item_by_path forest Sample.music = Some [0; 0])
    by (vm_compute; reflexivity).
  split; [exact H|].
  exact (refreshed_folder_keeps_its_state fs forest Sample.music [0; 0] H).
Defined.

Lemma Forall_update_nth (P : item -> Prop) g : forall l i,
  (forall x, P x -> P (g x)) -> Forall P l -> Forall P (update_nth i g l).
Proof.
  induction l as [|x l IH]; intros [|i] Hg H; simpl; try assumption;
    inversion H; subst; constructor; auto.
Qed.

(** X17.  The tree mirrors a well-formed disk from the start and as long
    as items are expanded, checked and unchecked: the drive items do, and
    when every top-level item does, so does every top-level item after an
    item has been expanded or its check state set. *)
Theorem the_tree_keeps_mirroring_the_disk fs forest r s :
  FS.wf fs ->
  Forall (mirrors fs) forest ->
  Forall (mirrors fs) (update_item r (on_item_expanded fs) forest)
  /\ Forall (mirrors fs) (update_item r (setCheckState s) forest)
  /\ forall bitmask, Forall (mirrors fs) (load_all_drives bitmask).
Proof.
  intros Hwf H. split; [|split].
  - destruct r as [|i r]; [exact H|]. simpl.
    apply Forall_update_nth; [|exact H].
    intros x. now apply mirrors_after_expanding.
  - destruct r as [|i r]; [exact H|]. simpl.
    apply Forall_update_nth; [|exact H].
    intros x. apply mirrors_after_clicking.
  - intros bitmask. apply Forall_forall. intros it.
    apply mirrors_drive_items.
Qed.

Lemma the_tree_keeps_mirroring_the_disk_witness :
  let fs := Sample.disk_collision in
  let forest := load_all_drives 4 in
  (FS.wfb fs = true /\ Forall (mirrors fs) forest)
  /\ Forall (mirrors fs) (update_item [0] (on_item_expanded fs) forest)
  /\ Forall (mirrors fs) (update_item [0] (setCheckState Checked) forest)
  /\ forall bitmask, Forall (mirrors fs) (load_all_drives bitmask).
Proof.
  intros fs forest.
  assert (Hwf : FS.wfb fs = true) by (vm_compute; reflexivity).
  assert (Hm : Forall (mirrors fs) forest).
  { apply Forall_forall. intros it. apply mirrors_drive_items. }
  split; [split; assumption|].
  exact (the_tree_keeps_mirroring_the_disk fs forest [0] Checked
           (wfb_sound fs Hwf) Hm).
Defined.

(** ** [on_item_changed] *)

(** X18.  After [on_item_changed] every child of the item has the check
    state of the item, whatever states the children had, and the item
    itself is as it was but for its children. *)
Theorem on_item_changed_syncs_the_children it :
  Forall (fun child => checkState child = checkState it)
         (children (on_item_changed it))
  /\ length (children (on_item_changed it)) = length (children it)
  /\ text (on_item_changed it) = text it
  /\ data (on_item_changed it) = data it
  /\ check (on_item_changed it) = check it.
Proof.
  unfold on_item_changed. cbn [children text data check].
  split; [|rewrite length_map; auto].
  apply Forall_forall. intros child Hin. apply in_map_iff in Hin.
  destruct Hin as (x & <- & _). apply checkState_setCheckState.
Qed.

(** ** Names without an extension *)

Lemma read_title_unsupported fs path file_name ext :
  ~ In ext SUPPORTED_EXTS -> read_title fs path file_name ext = None.
Proof.
  intros H. unfold read_title.
  destruct (Py.str_eqb ext (".mp3"%string : str)) eqn:E1;
    [apply str_eqb_eq in E1; subst; exfalso; apply H; simpl; auto|].
  destruct (Py.str_eqb ext (".flac"%string : str)) eqn:E2;
    [apply str_eqb_eq in E2; subst; exfalso; apply H; simpl; auto|].
  destruct (Py.str_eqb ext (".wav"%string : str)) eqn:E3;
    [apply str_eqb_eq in E3; subst; exfalso; apply H; simpl; auto|].
  reflexivity.
Qed.

(** X19.  A file whose name [os.path.splitext] gives no supported
    extension is left alone by the loop whatever its tags are, even when
    the name ends in a supported extension and the file is collected: a
    file that is called [.mp3] and nothing else is such a file. *)
Theorem name_without_extension_is_skipped st item path :
  ~ In (extension (ntpath.basename path)) SUPPORTED_EXTS ->
  new_path_of (disk st) path = None
  /\ rename_one st (item, path) = st.
Proof.
  intros H.
  assert (N : new_path_of (disk st) path = None).
  { apply title_of_none. unfold title_of.
    now apply read_title_unsupported. }
  split; [exact N|]. now apply new_path_of_none.
Qed.

Lemma name_without_extension_is_skipped_witness :
  let st := Sample.state_collision in
  let path := Sample.in_music ".mp3" in
  (supported path = true
   /\ ~ In (extension (ntpath.basename path)) SUPPORTED_EXTS)
  /\ new_path_of (disk st) path = None
  /\ rename_one st (None, path) = st.
Proof.
  intros st path.
  assert (H : ~ In (extension (ntpath.basename path)) SUPPORTED_EXTS).
  { vm_compute. intros [E|[E|[E|[]]]]; discriminate E. }
  split; [split; [vm_compute; reflexivity|exact H]|].
  exact (name_without_extension_is_skipped st None path H).
Defined.
